(** * statelet: reactive state containers and their enhancers

    A shallow embedding of [src/index.ts] and [src/enhancers.ts]:
    the container returned by [state], the composition helpers [compose]
    and [enhance], and the enhancers [withUrlParams], [withHashParams],
    [withStorage], [withEffect], [withValidation] and [withDebounce].

    JavaScript closures that the library stores (listeners, timer
    callbacks, event handlers, wrapped containers) are represented by
    constructors carrying what the closure captures; every operation is a
    function over an explicit [World]: the object heap, the container
    cells, the closure variables, the timer queue, the browser surfaces
    and a trace of the calls made to user-supplied functions. *)

From stdpp Require Import base option list strings gmap pretty.

Open Scope Z_scope.
Open Scope nat_scope.

(** ** JavaScript values *)

(** Objects are references into a heap, so that [===] on objects is
    reference equality.  [VNaN] is the one value that is not identical to
    itself.  Functions are not values here: a function passed to [set] is
    always an updater (see [SetArg]). *)
Inductive Value :=
  | VUndefined
  | VNull
  | VBool (b : bool)
  | VNum (n : Z)
  | VNaN
  | VStr (s : string)
  | VObj (r : nat).

(** [a === b] *)
Definition strict_eq (a b : Value) : bool :=
  match a, b with
  | VUndefined, VUndefined => true
  | VNull, VNull => true
  | VBool x, VBool y => bool_decide (x = y)
  | VNum x, VNum y => bool_decide (x = y)
  | VStr x, VStr y => bool_decide (x = y)
  | VObj x, VObj y => bool_decide (x = y)
  | _, _ => false
  end.

(** Own enumerable properties of an object.  Property order is not
    modelled. *)
Abbreviation Fields := (gmap string Value).

Record Heap := mkHeap {
  objects : gmap nat Fields;
  next_ref : nat
}.

Definition empty_heap : Heap := mkHeap ∅ 0.

(** An object literal: a fresh reference. *)
Definition alloc (fs : Fields) (h : Heap) : Value * Heap :=
  (VObj (next_ref h), mkHeap (<[next_ref h := fs]> (objects h)) (S (next_ref h))).

Definition chars (s : string) : list string :=
  (λ a, String a EmptyString) <$> String.list_ascii_of_string s.

(** What [{...v}] copies: the fields of an object, the indexed characters
    of a string, nothing for the other primitives. *)
Definition own_props (h : Heap) (v : Value) : Fields :=
  match v with
  | VObj r => default ∅ (objects h !! r)
  | VStr s => list_to_map (imap (λ i c, (pretty i, VStr c)) (chars s))
  | _ => ∅
  end.

(** [{...a, ...b}]: the properties of [b] win. *)
Definition spread (a b : Value) (h : Heap) : Value * Heap :=
  alloc (own_props h b ∪ own_props h a) h.

(** [VNum n] stands for the JavaScript number equal to the integer [n].
    The numbers of JavaScript are doubles: the integers that are numbers
    without loss, and that [String] prints as their decimal numeral, are
    the safe ones. *)
Definition safe_integer (n : Z) : bool :=
  bool_decide (- (2 ^ 53 - 1) ≤ n ≤ 2 ^ 53 - 1)%Z.

(** [String(v)].  The numeral of [VNum n] is what [String] gives on the
    safe integers (from [1e21] on, [String] switches to exponent
    notation); ["[object Object]"] is what it gives on a plain object. *)
Definition js_String (v : Value) : string :=
  match v with
  | VUndefined => "undefined"
  | VNull => "null"
  | VBool true => "true"
  | VBool false => "false"
  | VNum n => pretty n
  | VNaN => "NaN"
  | VStr s => s
  | VObj _ => "[object Object]"
  end.

(** The values on which [js_String] is [String]: the primitives, a number
    being a safe integer. *)
Definition prints_as_modelled (v : Value) : bool :=
  match v with
  | VNum n => safe_integer n
  | VObj _ => false
  | _ => true
  end.

(** [v === undefined || v === null] *)
Definition nullish (v : Value) : bool :=
  match v with
  | VUndefined | VNull => true
  | _ => false
  end.

(** ** Exceptions *)

Record Issue := mkIssue {
  message : string;
  path : list string
}.

(** [ValidationFailed issues] is the [Error('Validation failed')] of
    [withValidation] with its [issues] property; [HostError] stands for
    what the host or a collaborator throws ([SyntaxError],
    [QuotaExceededError], ...). *)
Inductive Error :=
  | ValidationFailed (issues : list Issue)
  | HostError (name : string).

Inductive Outcome (A : Type) :=
  | Ret (a : A)
  | Thrown (e : Error).
Arguments Ret {A} a.
Arguments Thrown {A} e.

(** Collaborators outside the library compute over the heap and may
    throw. *)
Definition H (A : Type) : Type := Heap → Outcome A * Heap.

(** ** External collaborators *)

(** [Codec<T>] of [@kvkit/codecs]. *)
Record Codec := mkCodec {
  encode : Value → H Value;
  decode : Value → H Value
}.

(** The result of [schema['~standard'].validate]: [{ value }] or
    [{ issues }]. *)
Inductive Validation :=
  | Accepted (value : Value)
  | Rejected (issues : list Issue).

Record Schema := mkSchema {
  validate : Value → Heap → Validation * Heap
}.

(** [JSON.parse] and [JSON.stringify]. *)
Record Json := mkJson {
  JSON_parse : string → H Value;
  JSON_stringify : Value → H string
}.

(** ** Containers *)

(** The argument of [set]: [typeof valueOrUpdater === 'function'] selects
    [Upd]. *)
Inductive SetArg :=
  | Lit (v : Value)
  | Upd (f : Value → Heap → Value * Heap).

Inductive ExtEvent := Popstate | Hashchange.

Global Instance ExtEvent_eq_dec : EqDecision ExtEvent.
Proof. solve_decision. Defined.

(** A [State<T>] object.  [SBase c] is the object returned by [state],
    whose closure owns cell [c] ([current] and [listeners]).  The other
    constructors are the object literals [{ ...base, ... }] returned by
    the enhancers, with what their overriding method captures. *)
Inductive State :=
  | SBase (c : nat)
  | SExt (evt : ExtEvent) (handler : nat) (base : State)
  | SValidation (schema : Schema) (base : State)
  | SDebounce (timeout : nat) (ms : nat) (base : State).

(** Identity of a function object. *)
Inductive FnRef :=
  | UserFn (n : nat)
  | Closure (n : nat).

Global Instance FnRef_eq_dec : EqDecision FnRef.
Proof. solve_decision. Defined.

(** Callbacks handed to [subscribe].  [Observer n] is a callback supplied
    by the user of the library: its body is opaque, and all that is
    recorded of it is that it was called, and with which value.  The
    others are the arrow functions that the enhancers pass to
    [base.subscribe]. *)
Inductive Callback :=
  | Observer (n : nat)
  | UrlWriter (id : nat) (codec : Codec)
  | HashWriter (id : nat) (codec : Codec)
  | Persister (id : nat) (key : string) (codec : Codec)
  | EffectRunner (id : nat) (effect : nat) (previous : nat).

Definition cb_ref (cb : Callback) : FnRef :=
  match cb with
  | Observer n => UserFn n
  | UrlWriter id _ | HashWriter id _ | Persister id _ _
  | EffectRunner id _ _ => Closure id
  end.

(** The closure state of one [state(initial)] call. *)
Record Cell := mkCell {
  current : Value;
  listeners : list Callback
}.

(** A pending [setTimeout(() => base.set(valueOrUpdater), ms)]. *)
Record Timer := mkTimer {
  timer_id : nat;
  due : nat;
  timer_base : State;
  timer_arg : SetArg
}.

(** A registered [handlePopState] / [handleHashChange]. *)
Record Handler := mkHandler {
  handler_evt : ExtEvent;
  handler_id : nat;
  handler_codec : Codec;
  handler_base : State
}.

(** What the library touches of [window]: the entries of
    [location.search] and [location.hash] as [URLSearchParams] lists them,
    [localStorage] with its quota, and the event listeners. *)
Record Window := mkWindow {
  location_search : list (string * string);
  location_hash : list (string * string);
  localStorage : gmap string string;
  quota : nat;
  event_listeners : list Handler
}.

(** Calls made to user-supplied functions. *)
Inductive Event :=
  | Called (cb : FnRef) (v : Value)
  | EffectCalled (effect : nat) (value prev : Value).

Record World := mkWorld {
  heap : Heap;
  cells : gmap nat Cell;
  previous_vars : gmap nat Value;
  timeout_vars : gmap nat nat;
  timers : list Timer;
  now : nat;
  next_id : nat;
  window_defined : bool;
  window : Window;
  JSON : Json;
  trace : list Event
}.

Definition with_heap (h : Heap) (w : World) : World :=
  mkWorld h (cells w) (previous_vars w) (timeout_vars w) (timers w) (now w)
          (next_id w) (window_defined w) (window w) (JSON w) (trace w).
Definition with_cells (cs : gmap nat Cell) (w : World) : World :=
  mkWorld (heap w) cs (previous_vars w) (timeout_vars w) (timers w) (now w)
          (next_id w) (window_defined w) (window w) (JSON w) (trace w).
Definition with_previous_vars (vs : gmap nat Value) (w : World) : World :=
  mkWorld (heap w) (cells w) vs (timeout_vars w) (timers w) (now w)
          (next_id w) (window_defined w) (window w) (JSON w) (trace w).
Definition with_timeout_vars (ts : gmap nat nat) (w : World) : World :=
  mkWorld (heap w) (cells w) (previous_vars w) ts (timers w) (now w)
          (next_id w) (window_defined w) (window w) (JSON w) (trace w).
Definition with_timers (ts : list Timer) (w : World) : World :=
  mkWorld (heap w) (cells w) (previous_vars w) (timeout_vars w) ts (now w)
          (next_id w) (window_defined w) (window w) (JSON w) (trace w).
Definition with_now (t : nat) (w : World) : World :=
  mkWorld (heap w) (cells w) (previous_vars w) (timeout_vars w) (timers w) t
          (next_id w) (window_defined w) (window w) (JSON w) (trace w).
Definition with_next_id (n : nat) (w : World) : World :=
  mkWorld (heap w) (cells w) (previous_vars w) (timeout_vars w) (timers w)
          (now w) n (window_defined w) (window w) (JSON w) (trace w).
Definition with_window (win : Window) (w : World) : World :=
  mkWorld (heap w) (cells w) (previous_vars w) (timeout_vars w) (timers w)
          (now w) (next_id w) (window_defined w) win (JSON w) (trace w).
Definition with_trace (tr : list Event) (w : World) : World :=
  mkWorld (heap w) (cells w) (previous_vars w) (timeout_vars w) (timers w)
          (now w) (next_id w) (window_defined w) (window w) (JSON w) tr.

(** ** The monad of library code: state passing with exceptions *)

Definition M (A : Type) : Type := World → Outcome A * World.

Definition ret {A} (a : A) : M A := λ w, (Ret a, w).

Definition throw {A} (e : Error) : M A := λ w, (Thrown e, w).

Definition bind {A B} (m : M A) (k : A → M B) : M B :=
  λ w, match m w with
       | (Ret a, w') => k a w'
       | (Thrown e, w') => (Thrown e, w')
       end.

Declare Scope js_scope.
Delimit Scope js_scope with js.
Notation "'let!' x ':=' m 'in' k" := (bind m (λ x, k))
  (at level 10, x name, m at level 100, k at level 200) : js_scope.
Notation "m1 '>>' m2" := (bind m1 (λ _, m2))
  (at level 100, m2 at level 200, right associativity) : js_scope.
Open Scope js_scope.

(** [try { m } catch { }] *)
Definition try_catch (m : M unit) : M unit :=
  λ w, match m w with
       | (Ret _, w') => (Ret tt, w')
       | (Thrown _, w') => (Ret tt, w')
       end.

Definition lift_heap {A} (f : H A) : M A :=
  λ w, let '(r, h) := f (heap w) in (r, with_heap h w).

Definition fresh : M nat :=
  λ w, (Ret (next_id w), with_next_id (S (next_id w)) w).

Definition log (e : Event) : M unit :=
  λ w, (Ret tt, with_trace (trace w ++ [e]) w).

Fixpoint for_each {A} (f : A → M unit) (l : list A) : M unit :=
  match l with
  | [] => ret tt
  | x :: l' => f x >> for_each f l'
  end.

(** ** The container: [state(initial)] *)

Definition empty_cell : Cell := mkCell VUndefined [].

Definition cell_at (c : nat) (w : World) : Cell :=
  default empty_cell (cells w !! c).

Definition read_current (c : nat) : M Value :=
  λ w, (Ret (current (cell_at c w)), w).

Definition read_listeners (c : nat) : M (list Callback) :=
  λ w, (Ret (listeners (cell_at c w)), w).

(** [current = next] *)
Definition write_current (c : nat) (v : Value) : M unit :=
  λ w, (Ret tt,
        with_cells (<[c := mkCell v (listeners (cell_at c w))]> (cells w)) w).

(** [listeners.add(callback)]: a [Set] holds a function object once, at
    the position of its first insertion. *)
Definition add_listener (c : nat) (cb : Callback) : M unit :=
  λ w, let cell := cell_at c w in
       if bool_decide (cb_ref cb ∈ cb_ref <$> listeners cell)
       then (Ret tt, w)
       else (Ret tt,
             with_cells
               (<[c := mkCell (current cell) (listeners cell ++ [cb])]>
                  (cells w)) w).

(** [listeners.delete(callback)] *)
Definition delete_listener (c : nat) (f : FnRef) : M unit :=
  λ w, let cell := cell_at c w in
       (Ret tt,
        with_cells
          (<[c := mkCell (current cell)
                         (filter (λ cb, cb_ref cb ≠ f) (listeners cell))]>
             (cells w)) w).

(** *** The browser surfaces *)

(** The surfaces are only reached from code behind the
    [typeof window === 'undefined'] guard of an enhancer. *)
Definition get_window : M Window := λ w, (Ret (window w), w).

Definition put_window (win : Window) : M unit :=
  λ w, (Ret tt, with_window win w).

(** The entries of [new URLSearchParams(...)] over [location.search]
    ([Popstate]) or [location.hash.slice(1)] ([Hashchange]). *)
Definition read_params (evt : ExtEvent) : M (list (string * string)) :=
  let! win := get_window in
  ret (match evt with
       | Popstate => location_search win
       | Hashchange => location_hash win
       end).

(** [history.replaceState(null, '', url)] with the new [url.search], or
    the assignment to [location.hash]: what the address bar shows when
    the statement returns.  [replaceState] sends no event.  An assignment
    that changes the hash makes the browser queue a [hashchange] event;
    the host delivers it later, in a task of its own, which is
    [dispatch Hashchange] below. *)
Definition write_params (evt : ExtEvent) (ps : list (string * string))
  : M unit :=
  let! win := get_window in
  put_window
    (match evt with
     | Popstate =>
         mkWindow ps (location_hash win) (localStorage win) (quota win)
                  (event_listeners win)
     | Hashchange =>
         mkWindow (location_search win) ps (localStorage win) (quota win)
                  (event_listeners win)
     end).

(** [params.forEach((value, key) => data[key] = value)]: a later entry
    overwrites an earlier one with the same key. *)
Definition collect (ps : list (string * string)) : Fields :=
  fold_left (λ data kv, <[kv.1 := VStr kv.2]> data) ps ∅.

(** [Object.entries(encoded)]: a [TypeError] on [undefined] and [null],
    the own properties of any other value. *)
Definition Object_entries (encoded : Value) : M Fields :=
  λ w, match encoded with
       | VUndefined | VNull => (Thrown (HostError "TypeError"), w)
       | _ => (Ret (own_props (heap w) encoded), w)
       end.

(** [entries.forEach(([key, val]) => ...)]: the entries that are neither
    [undefined] nor [null], each value through [String].  The entries
    come in the key order of the map, where JavaScript follows the order
    in which the properties were created: which entries are written does
    not depend on it, their order in the query string does. *)
Definition params_of (fs : Fields) : list (string * string) :=
  omap (λ kv, match kv.2 with
              | VUndefined | VNull => None
              | v => Some (kv.1, js_String v)
              end) (map_to_list fs).

Definition storage_size (m : gmap string string) : nat :=
  map_fold (λ k v n, String.length k + String.length v + n) 0 m.

(** [localStorage.getItem(key)] *)
Definition getItem (key : string) : M (option string) :=
  let! win := get_window in
  ret (localStorage win !! key).

(** [localStorage.setItem(key, value)]: throws when the record does not
    fit the quota. *)
Definition setItem (key value : string) : M unit :=
  let! win := get_window in
  let store := <[key := value]> (localStorage win) in
  if bool_decide (storage_size store ≤ quota win)
  then put_window
         (mkWindow (location_search win) (location_hash win) store
                   (quota win) (event_listeners win))
  else throw (HostError "QuotaExceededError").

Definition addEventListener (h : Handler) : M unit :=
  let! win := get_window in
  put_window
    (mkWindow (location_search win) (location_hash win) (localStorage win)
              (quota win) (event_listeners win ++ [h])).

Definition removeEventListener (evt : ExtEvent) (id : nat) : M unit :=
  let! win := get_window in
  put_window
    (mkWindow (location_search win) (location_hash win) (localStorage win)
              (quota win)
              (filter (λ h, ¬ (handler_evt h = evt ∧ handler_id h = id))
                      (event_listeners win))).

(** *** Listener bodies *)

(** The body of a callback, applied to [value]. *)
Definition run_callback (cb : Callback) (value : Value) : M unit :=
  match cb with
  | Observer _ => ret tt
  | UrlWriter _ codec =>
      let! encoded := lift_heap (encode codec value) in
      let! entries := Object_entries encoded in
      write_params Popstate (params_of entries)
  | HashWriter _ codec =>
      let! encoded := lift_heap (encode codec value) in
      let! entries := Object_entries encoded in
      write_params Hashchange (params_of entries)
  | Persister _ key codec =>
      try_catch
        (let! encoded := lift_heap (encode codec value) in
         let! text := (λ w, lift_heap (JSON_stringify (JSON w) encoded) w) in
         setItem key text)
  | EffectRunner _ effect previous =>
      let! prev := (λ w, (Ret (default VUndefined (previous_vars w !! previous)), w)) in
      log (EffectCalled effect value prev) >>
      λ w, (Ret tt, with_previous_vars (<[previous := value]> (previous_vars w)) w)
  end.

(** [callback(value)] *)
Definition invoke (cb : Callback) (value : Value) : M unit :=
  log (Called (cb_ref cb) value) >> run_callback cb value.

(** *** [get], [set], [subscribe] of the object returned by [state] *)

Definition resolve (valueOrUpdater : SetArg) (cur : Value) : M Value :=
  match valueOrUpdater with
  | Upd f => λ w, let '(v, h) := f cur (heap w) in (Ret v, with_heap h w)
  | Lit v => ret v
  end.

Definition state_get (c : nat) : M Value := read_current c.

(** [listeners.forEach(callback => callback(current))].  No listener
    body of this model adds or removes a listener or writes [current], so
    the loop runs over the listeners as they are when it starts. *)
Definition notify (c : nat) (ls : list Callback) : M unit :=
  for_each (λ callback, let! v := read_current c in invoke callback v) ls.

Definition state_set (c : nat) (valueOrUpdater : SetArg) : M unit :=
  let! cur := read_current c in
  let! next := resolve valueOrUpdater cur in
  if negb (strict_eq next cur) then
    write_current c next >>
    let! ls := read_listeners c in
    notify c ls
  else ret tt.

Definition state_subscribe (c : nat) (callback : Callback) : M (M unit) :=
  add_listener c callback >>
  let! v := read_current c in
  invoke callback v >>
  ret (delete_listener c (cb_ref callback)).

(** [state(initial)] *)
Definition state (initial : Value) : M State :=
  let! c := fresh in
  (λ w, (Ret tt, with_cells (<[c := mkCell initial []]> (cells w)) w)) >>
  ret (SBase c).

(** *** Timers *)

(** [setTimeout(() => base.set(valueOrUpdater), ms)] *)
Definition setTimeout (base : State) (valueOrUpdater : SetArg) (ms : nat)
  : M nat :=
  let! id := fresh in
  λ w, (Ret id,
        with_timers (timers w ++ [mkTimer id (now w + ms) base valueOrUpdater]) w).

(** [clearTimeout(handle)]; nothing happens for [undefined] or for a timer
    that is no longer pending. *)
Definition clearTimeout (handle : option nat) : M unit :=
  λ w, (Ret tt,
        match handle with
        | Some id => with_timers (filter (λ t, timer_id t ≠ id) (timers w)) w
        | None => w
        end).

(** *** Methods of a [State] object *)

Fixpoint get (s : State) : M Value :=
  match s with
  | SBase c => state_get c
  | SExt _ _ base => get base
  | SValidation _ base => get base
  | SDebounce _ _ base => get base
  end.

Fixpoint set (s : State) (valueOrUpdater : SetArg) : M unit :=
  match s with
  | SBase c => state_set c valueOrUpdater
  | SExt _ _ base => set base valueOrUpdater
  | SValidation schema base =>
      let! next :=
        match valueOrUpdater with
        | Upd f => let! cur := get base in resolve (Upd f) cur
        | Lit v => ret v
        end in
      let! result :=
        (λ w, let '(r, h) := validate schema next (heap w) in
              (Ret r, with_heap h w)) in
      match result with
      | Rejected issues => throw (ValidationFailed issues)
      | Accepted value => set base (Lit value)
      end
  | SDebounce timeout ms base =>
      let! handle := (λ w, (Ret (timeout_vars w !! timeout), w)) in
      clearTimeout handle >>
      let! id := setTimeout base valueOrUpdater ms in
      λ w, (Ret tt, with_timeout_vars (<[timeout := id]> (timeout_vars w)) w)
  end.

(** [subscribe] returns the unsubscribe function. *)
Fixpoint subscribe (s : State) (callback : Callback) : M (M unit) :=
  match s with
  | SBase c => state_subscribe c callback
  | SExt evt handler base =>
      let! unsub := subscribe base callback in
      ret (unsub >> removeEventListener evt handler)
  | SValidation _ base => subscribe base callback
  | SDebounce _ _ base => subscribe base callback
  end.

(** ** Composition *)

Definition Enhancer : Type := State → M State.

(** [enhancers.reduce(f, base)] *)
Fixpoint reduce (f : State → Enhancer → M State) (enhancers : list Enhancer)
  (acc : State) : M State :=
  match enhancers with
  | [] => ret acc
  | enhancer :: rest => let! acc' := f acc enhancer in reduce f rest acc'
  end.

Definition compose (base : State) (enhancers : list Enhancer) : M State :=
  reduce (λ current enhancer, enhancer current) enhancers base.

Definition enhance (enhancers : list Enhancer) : State → M State :=
  λ base, compose base enhancers.

(** The composition law as the specification words it:
    [enhancer_n(...enhancer_2(enhancer_1(base)))], read from the outermost
    application inwards.  The list is given outermost first. *)
Fixpoint nested_application (outermost_first : list Enhancer) (base : State)
  : M State :=
  match outermost_first with
  | [] => ret base
  | enhancer_n :: inner =>
      let! s := nested_application inner base in enhancer_n s
  end.

(** ** Enhancers *)

(** [base.set({ ...base.get(), ...decoded })] *)
Definition merge_decoded (base : State) (decoded : Value) : M unit :=
  let! cur := get base in
  let! merged :=
    (λ w, let '(v, h) := spread cur decoded (heap w) in
          (Ret v, with_heap h w)) in
  set base (Lit merged).

(** The four lines shared by hydration and by the event handlers of the
    URL enhancers: read the parameters into [data], decode, merge. *)
Definition sync_from_location (evt : ExtEvent) (codec : Codec) (base : State)
  : M unit :=
  let! params := read_params evt in
  let! data := lift_heap (λ h, let '(v, h') := alloc (collect params) h in
                               (Ret v, h')) in
  let! decoded := lift_heap (decode codec data) in
  merge_decoded base decoded.

Definition withUrlParams (codec : Codec) : Enhancer :=
  λ base w,
    if negb (window_defined w) then ret base w
    else
      (sync_from_location Popstate codec base >>
       let! id := fresh in
       let! _ := subscribe base (UrlWriter id codec) in
       let! handlePopState := fresh in
       addEventListener (mkHandler Popstate handlePopState codec base) >>
       ret (SExt Popstate handlePopState base)) w.

Definition withHashParams (codec : Codec) : Enhancer :=
  λ base w,
    if negb (window_defined w) then ret base w
    else
      (sync_from_location Hashchange codec base >>
       let! id := fresh in
       let! _ := subscribe base (HashWriter id codec) in
       let! handleHashChange := fresh in
       addEventListener (mkHandler Hashchange handleHashChange codec base) >>
       ret (SExt Hashchange handleHashChange base)) w.

(** The [try] block of [withStorage]. *)
Definition hydrate_from_storage (key : string) (codec : Codec) (base : State)
  : M unit :=
  let! stored := getItem key in
  match stored with
  | Some text =>
      if bool_decide (text = "") then ret tt
      else
        let! parsed := (λ w, lift_heap (JSON_parse (JSON w) text) w) in
        let! decoded := lift_heap (decode codec parsed) in
        merge_decoded base decoded
  | None => ret tt
  end.

Definition withStorage (key : string) (codec : Codec) : Enhancer :=
  λ base w,
    if negb (window_defined w) then ret base w
    else
      (try_catch (hydrate_from_storage key codec base) >>
       let! id := fresh in
       let! _ := subscribe base (Persister id key codec) in
       ret base) w.

(** [effect(value, prev)]: a user function, recorded in the trace. *)
Definition call_effect (effect : nat) (value prev : Value) : M unit :=
  log (EffectCalled effect value prev).

Definition withEffect (effect : nat) (immediate : bool) : Enhancer :=
  λ base,
    let! initial := get base in
    let! previous := fresh in
    (λ w, (Ret tt,
           with_previous_vars (<[previous := initial]> (previous_vars w)) w)) >>
    (if immediate then call_effect effect initial initial else ret tt) >>
    let! id := fresh in
    let! _ := subscribe base (EffectRunner id effect previous) in
    ret base.

Definition withValidation (schema : Schema) : Enhancer :=
  λ base, ret (SValidation schema base).

Definition withDebounce (ms : nat) : Enhancer :=
  λ base,
    let! timeout := fresh in
    ret (SDebounce timeout ms base).

(** ** The host: timers firing and events arriving *)

(** The host runs a pending timer: the timer leaves the queue, the clock
    is at its due time or later, and the callback
    [() => { base.set(valueOrUpdater) }] runs.  No code of the library
    is on the stack below the callback: a [Thrown] outcome is an uncaught
    exception, which the host reports (a browser logs it, Node ends the
    process unless a handler is installed). *)
Definition run_timer (t : Timer) : M unit :=
  λ w,
    let w1 := with_timers (filter (λ t', timer_id t' ≠ timer_id t) (timers w)) w in
    let w2 := with_now (now w1 `max` due t) w1 in
    set (timer_base t) (timer_arg t) w2.

(** The world that [run_timer] leaves, for a host that goes on after an
    uncaught exception. *)
Definition fire (t : Timer) (w : World) : World := (run_timer t w).2.

(** The next timer to run: the earliest due, the first scheduled among
    equals. *)
Fixpoint earliest (ts : list Timer) : option Timer :=
  match ts with
  | [] => None
  | t :: ts' =>
      match earliest ts' with
      | Some t' => if bool_decide (due t' < due t) then Some t' else Some t
      | None => Some t
      end
  end.

(** Let time pass until [deadline], running the timers that come due, at
    most [fuel] of them. *)
Fixpoint run_until (fuel : nat) (deadline : nat) (w : World) : World :=
  match earliest (timers w) with
  | Some t =>
      if bool_decide (due t ≤ deadline) then
        match fuel with
        | S fuel' => run_until fuel' deadline (fire t w)
        | O => w
        end
      else with_now (now w `max` deadline) w
  | None => with_now (now w `max` deadline) w
  end.

(** The running task ends and [ms] milliseconds pass before the next
    one, as in [await new Promise(r => setTimeout(r, ms))]: the host runs
    the timers that come due.  Events are delivered by [dispatch]. *)
Definition sleep (fuel : nat) (ms : nat) (w : World) : World :=
  run_until fuel (now w + ms) w.

(** [ms] milliseconds pass while nothing else runs: the running task
    goes on, or the host has nothing due. *)
Definition elapse (ms : nat) (w : World) : World := with_now (now w + ms) w.

(** The host delivers a [popstate] or [hashchange] event to the handlers
    registered for it. *)
Definition dispatch (evt : ExtEvent) : M unit :=
  let! win := get_window in
  for_each
    (λ h, try_catch
            (sync_from_location (handler_evt h) (handler_codec h)
                                (handler_base h)))
    (filter (λ h, handler_evt h = evt) (event_listeners win)).

(** The user navigates: the address bar shows [ps] and the event is
    delivered. *)
Definition navigate (evt : ExtEvent) (ps : list (string * string)) : M unit :=
  write_params evt ps >> dispatch evt.

(** ** Observations *)

(** The cell that a [State] object reads and writes in the end. *)
Fixpoint root (s : State) : nat :=
  match s with
  | SBase c => c
  | SExt _ _ base | SValidation _ base | SDebounce _ _ base => root base
  end.

(** The callback invocations of a trace, in order. *)
Definition calls (tr : list Event) : list (FnRef * Value) :=
  omap (λ e, match e with
             | Called f v => Some (f, v)
             | EffectCalled _ _ _ => None
             end) tr.

(** The invocations of one callback: the values it received. *)
Definition calls_to (f : FnRef) (tr : list Event) : list Value :=
  snd <$> filter (λ fv, fv.1 = f) (calls tr).

(** The invocations of the user's effect function: [(value, prev)]. *)
Definition effect_calls (effect : nat) (tr : list Event)
  : list (Value * Value) :=
  omap (λ e, match e with
             | EffectCalled eff v p =>
                 if bool_decide (eff = effect) then Some (v, p) else None
             | Called _ _ => None
             end) tr.

(** The value that [set] compares with the current one. *)
Definition candidate (valueOrUpdater : SetArg) (cur : Value) (h : Heap)
  : Value * Heap :=
  match valueOrUpdater with
  | Upd f => f cur h
  | Lit v => (v, h)
  end.

(** A listener that never throws. *)
Definition returns_normally (cb : Callback) : Prop :=
  ∀ v w, (run_callback cb v w).1 = Ret tt.

(** The function objects registered with a cell. *)
Definition registered (c : nat) (w : World) : list FnRef :=
  cb_ref <$> listeners (cell_at c w).

(** The function returned by [s.subscribe(callback)], [f] being the
    callback's identity. *)
Fixpoint unsubscriber (s : State) (f : FnRef) : M unit :=
  match s with
  | SBase c => delete_listener c f
  | SExt evt handler base =>
      unsubscriber base f >> removeEventListener evt handler
  | SValidation _ base | SDebounce _ _ base => unsubscriber base f
  end.

(** The world that this function leaves when it is called in [w]. *)
Fixpoint after_unsubscribe (s : State) (f : FnRef) (w : World) : World :=
  match s with
  | SBase c => (delete_listener c f w).2
  | SExt evt handler base =>
      (removeEventListener evt handler (after_unsubscribe base f w)).2
  | SValidation _ base | SDebounce _ _ base => after_unsubscribe base f w
  end.

(** A run of writes to a cell, whatever each one throws. *)
Definition writes (c : nat) (args : list SetArg) (w : World) : World :=
  foldl (λ w' arg, (state_set c arg w').2) w args.

(** The enhancer that listens to [evt]. *)
Definition location_enhancer (evt : ExtEvent) : Codec → Enhancer :=
  match evt with
  | Popstate => withUrlParams
  | Hashchange => withHashParams
  end.

(** [handler] is the listener that the enhancer registered for [evt]. *)
Definition listens (evt : ExtEvent) (handler : nat) (h : Handler) : Prop :=
  handler_evt h = evt ∧ handler_id h = handler.

(** The entries that hydration reads. *)
Definition params_at (evt : ExtEvent) (w : World) : list (string * string) :=
  match evt with
  | Popstate => location_search (window w)
  | Hashchange => location_hash (window w)
  end.

(** Shallow merge, as the specification words it: [merged] has every
    field of [decoded], and every other field of [cur] with the value it
    has in [cur]. *)
Definition shallow_merge (h : Heap) (cur decoded : Value) (merged : Fields)
  : Prop :=
  ∀ k, merged !! k = match own_props h decoded !! k with
                     | Some v => Some v
                     | None => own_props h cur !! k
                     end.

(** A run of [set] calls on [s], each made [gap] milliseconds after the
    one before, while nothing else runs in between: no timer callback and
    no event handler.  These are the calls of one task, whatever the
    gaps, and the calls of tasks that follow each other before the
    pending timer has run. *)
Definition burst (s : State) (burst_calls : list (nat * SetArg))
  (w : World) : World :=
  foldl (λ w' call, (set s call.2 (elapse call.1 w')).2) w burst_calls.

(** The argument of the last call of a run that starts with [first]. *)
Definition final_arg (first : SetArg) (rest : list (nat * SetArg)) : SetArg :=
  foldl (λ _ call, call.2) first rest.

(** The timers of [w0] that a [set] on the debounced container with the
    variable [timeout] does not cancel: all but the one whose handle the
    variable holds. *)
Definition pending_elsewhere (timeout : nat) (w0 : World) : list Timer :=
  match timeout_vars w0 !! timeout with
  | Some id => filter (λ t, timer_id t ≠ id) (timers w0)
  | None => timers w0
  end.

(** The handles of the pending timers were handed out by [setTimeout]. *)
Definition handles_issued (w : World) : Prop :=
  Forall (λ t, timer_id t < next_id w) (timers w).

(** The state of a debounced container after a [set] call of a run that
    started in [w0]: its one pending timer [t] holds [arg] and is due
    [ms] after the call; the [timeout] variable holds its handle; the
    other timers are those of [w0]; cells, heap and trace are those of
    [w0]. *)
Definition one_pending (timeout ms : nat) (base : State) (w0 w : World)
  (arg : SetArg) (t : Timer) : Prop :=
  t = mkTimer (timer_id t) (now w + ms) base arg
  ∧ next_id w0 ≤ timer_id t < next_id w
  ∧ timers w = pending_elsewhere timeout w0 ++ [t]
  ∧ timeout_vars w !! timeout = Some (timer_id t)
  ∧ cells w = cells w0 ∧ heap w = heap w0 ∧ trace w = trace w0.

(** [ps] holds one entry [key=String(value)] for each property of [fs]
    that is neither [undefined] nor [null], and nothing else. *)
Definition entries_written (fs : Fields) (ps : list (string * string))
  : Prop :=
  (∀ k text,
     (k, text) ∈ ps
     ↔ ∃ v, fs !! k = Some v ∧ nullish v = false ∧ text = js_String v)
  ∧ NoDup ps.*1.

(** [f] was called exactly once between [before] and [after], with [v]. *)
Definition notified_once_with (f : FnRef) (v : Value) (before after : World)
  : Prop :=
  calls_to f (trace after) = calls_to f (trace before) ++ [v].

(** A listener that is not a runner of the user function [effect] and
    does not own the variable [previous]. *)
Definition unrelated_to (effect previous : nat) (cb : Callback) : Prop :=
  match cb with
  | EffectRunner _ e p => e ≠ effect ∧ p ≠ previous
  | _ => True
  end.

(** ** Sample worlds *)

(** A stand-in for [JSON]: [parse] rejects the text ["!"] and reads any
    other text as an object with the one field [data]; [stringify]
    answers ["{}"]. *)
Definition json_stub : Json :=
  mkJson (λ text h,
            if bool_decide (text = "!")
            then (Thrown (HostError "SyntaxError"), h)
            else let '(v, h') := alloc {[ "data" := VStr text ]} h in
                 (Ret v, h'))
         (λ _ h, (Ret "{}", h)).

Definition empty_window : Window := mkWindow [] [] ∅ 0 [].

(** A world before any container is created; [browser] tells whether
    [window] is defined. *)
Definition initial_world (browser : bool) : World :=
  mkWorld empty_heap ∅ ∅ ∅ [] 0 0 browser empty_window json_stub [].

(** One container holding [v], with the given listeners. *)
Definition one_cell (v : Value) (ls : list Callback) : World :=
  with_next_id 1 (with_cells {[0 := mkCell v ls]} (initial_world false)).

(** The schema of the test suite: [name] must be a string of at least two
    characters. *)
Definition name_issue : Issue :=
  mkIssue "Name must be at least 2 characters" ["name"].

Definition name_schema : Schema :=
  mkSchema (λ value h,
    match own_props h value !! "name" with
    | Some (VStr name) =>
        if bool_decide (2 ≤ String.length name) then (Accepted value, h)
        else (Rejected [name_issue], h)
    | _ => (Rejected [name_issue], h)
    end).

Definition person (name : string) (age : Z) : Fields :=
  {[ "name" := VStr name; "age" := VNum age ]}.

(** [state({ name: '', age: 25 })] with one subscriber, and the object
    [{ name: 'A', age: 25 }] about to be passed to [set]. *)
Definition person_world : World :=
  with_heap (mkHeap {[ 0 := person "" 25; 1 := person "A" 25 ]} 2)
            (one_cell (VObj 0) [Observer 1]).

(** [c = compose(state(0), withEffect(effect, { immediate }))], with
    [effect] the user function number 7: the container and the world
    right after composition. *)
Definition effect_demo (immediate : bool) : Outcome State * World :=
  (let! s := state (VNum 0) in compose s [withEffect 7 immediate])
    (initial_world false).

(** Then [c.set(1); c.set(2)]. *)
Definition effect_demo_writes (immediate : bool) : World :=
  match effect_demo immediate with
  | (Ret c, w) => (set c (Lit (VNum 2)) (set c (Lit (VNum 1)) w).2).2
  | (Thrown _, w) => w
  end.

(** A codec that passes values through. *)
Definition plain_codec : Codec :=
  mkCodec (λ v h, (Ret v, h)) (λ v h, (Ret v, h)).

(** A browser at [?q=tea], and [state({ q: '', page: 1 })]. *)
Definition search_world : World :=
  with_window (mkWindow [("q", "tea")] [] ∅ 100 [])
    (with_heap (mkHeap {[ 0 := {[ "q" := VStr ""; "page" := VNum 1 ]} ]} 1)
       (with_next_id 1
          (with_cells {[0 := mkCell (VObj 0) []]} (initial_world true)))).

(** The same container in a browser whose [localStorage] holds a record
    under ["k"]. *)
Definition storage_world (text : string) : World :=
  with_window (mkWindow [] [] {[ "k" := text ]} 100 []) search_world.

(** The same container in a browser whose [localStorage] accepts nothing
    (quota 0), already enhanced by [withStorage('k')]. *)
Definition full_storage_world : World :=
  (withStorage "k" plain_codec (SBase 0)
     (with_window (mkWindow [] [] ∅ 0 []) search_world)).2.

(** The updater [prev => prev + 1]. *)
Definition increment : Value → Heap → Value * Heap :=
  λ prev h, match prev with
            | VNum n => (VNum (n + 1), h)
            | _ => (VNaN, h)
            end.

(** [inner = state(1); c = withDebounce(50)(inner)];
    [c.set(prev => prev + 1)]; then, 20 ms later, [inner.set(10)]; then
    40 more ms pass. *)
Definition deferred_updater_demo : World :=
  let w0 := one_cell (VNum 1) [Observer 1] in
  match withDebounce 50 (SBase 0) w0 with
  | (Ret c, w1) =>
      let w2 := (set c (Upd increment) w1).2 in
      let w3 := (set (SBase 0) (Lit (VNum 10)) (sleep 1 20 w2)).2 in
      sleep 1 40 w3
  | (Thrown _, w1) => w1
  end.

(** [c = compose(state(''), withDebounce(50))]; [c.subscribe(cb)]. *)
Definition debounce_subscribed : Outcome State * World :=
  (let! c := (let! s := state (VStr "") in compose s [withDebounce 50]) in
   let! _ := subscribe c (Observer 1) in
   ret c) (initial_world false).

(** Then [c.set(v)] for each of [values], synchronously, and 100 ms
    pass. *)
Definition debounce_demo (values : list Value) : World :=
  match debounce_subscribed with
  | (Ret c, w) => sleep 1 100 (burst c ((λ v, (0, Lit v)) <$> values) w)
  | (Thrown _, w) => w
  end.

(** A debounced container over [state('')] with one subscriber, and the
    calls [set('a')], [set('b')], [set('c')] made in one go. *)
Definition typing_world : World := one_cell (VStr "") [Observer 1].

Definition typing_rest : list (nat * SetArg) :=
  [(0, Lit (VStr "b")); (0, Lit (VStr "c"))].

Definition typing_burst : World :=
  burst (SDebounce 7 50 (SBase 0)) ((0, Lit (VStr "a")) :: typing_rest)
        typing_world.

(** [c = state(0); c.set(5); c.set(prev => prev + 1)] *)
Definition counter_demo : Outcome Value * World :=
  (let! c := state (VNum 0) in
   set c (Lit (VNum 5)) >>
   set c (Upd increment) >>
   get c) (initial_world false).

(** [c = compose(state({ q: '', page: 1 }), withUrlParams())] at [?q=tea];
    two subscribers; the first one unsubscribes if [unsubscribe_first];
    then the user navigates to [?q=milk].  The result is the [q] field of
    the container's value, the subscribers left, and the [popstate]
    listeners left. *)
Definition teardown_demo (unsubscribe_first : bool)
  : option Value * list FnRef * nat :=
  let run :=
    (let! c := withUrlParams plain_codec (SBase 0) in
     let! unsub1 := subscribe c (Observer 1) in
     let! _ := subscribe c (Observer 2) in
     (if unsubscribe_first then unsub1 else ret tt) >>
     navigate Popstate [("q", "milk")] >>
     get c) search_world in
  match run with
  | (Ret v, w) =>
      (own_props (heap w) v !! "q", registered 0 w,
       length (event_listeners (window w)))
  | (Thrown _, w) => (None, registered 0 w, length (event_listeners (window w)))
  end.

(** A browser at [#q=&page=1], [state({ q: '', page: '1' })], and the
    object [{ q: 'tea', page: '1' }]. *)
Definition hash_world : World :=
  with_window (mkWindow [] [("q", ""); ("page", "1")] ∅ 100 [])
    (with_heap
       (mkHeap {[ 0 := {[ "q" := VStr ""; "page" := VStr "1" ]};
                  1 := {[ "q" := VStr "tea"; "page" := VStr "1" ]} ]} 2)
       (with_next_id 1
          (with_cells {[0 := mkCell (VObj 0) []]} (initial_world true)))).

(** [c = compose(state({ q: '', page: '1' }), withHashParams())];
    [c.subscribe(cb)]; [c.set({ q: 'tea', page: '1' })], which makes the
    internal listener assign a new hash; then the browser delivers the
    [hashchange] event that the assignment caused.  The result is the
    values [cb] was called with when [set] returned and after the
    event, and the [q] entry of the hash at both times. *)
Definition hash_echo_demo
  : (list Value * list Value) * (list string * list string) :=
  let run :=
    (let! c := withHashParams plain_codec (SBase 0) in
     let! _ := subscribe c (Observer 9) in
     set c (Lit (VObj 1))) hash_world in
  let w := run.2 in
  let w' := (dispatch Hashchange w).2 in
  let q_of x := (λ kv : string * string, kv.2)
                <$> filter (λ kv, kv.1 = "q") (location_hash (window x)) in
  ((calls_to (UserFn 9) (trace w), calls_to (UserFn 9) (trace w')),
   (q_of w, q_of w')).

(** ** The external-sync enhancers as data *)

(** One of the three enhancers behind the
    [typeof window === 'undefined'] guard, with its arguments. *)
Inductive SyncEnhancer :=
  | SyncUrl (codec : Codec)
  | SyncHash (codec : Codec)
  | SyncStorage (key : string) (codec : Codec).

Definition sync_enhancer (e : SyncEnhancer) : Enhancer :=
  match e with
  | SyncUrl codec => withUrlParams codec
  | SyncHash codec => withHashParams codec
  | SyncStorage key codec => withStorage key codec
  end.

(** ** More sample collaborators *)

(** A schema that accepts every number and coerces those above 100 to
    100; anything else is rejected. *)
Definition clamp_issue : Issue := mkIssue "Expected a number" [].

Definition clamp_schema : Schema :=
  mkSchema (λ value h,
    match value with
    | VNum n => (Accepted (VNum (n `min` 100)%Z), h)
    | _ => (Rejected [clamp_issue], h)
    end).

(** A codec whose [encode] always throws. *)
Definition failing_codec : Codec :=
  mkCodec (λ _ h, (Thrown (HostError "TypeError"), h)) (λ v h, (Ret v, h)).

(** Values whose spread copies nothing: every primitive but a string. *)
Definition spreads_nothing (v : Value) : bool :=
  match v with
  | VObj _ | VStr _ => false
  | _ => true
  end.

(** A stand-in for [JSON] that reads every text as the number of its
    characters. *)
Definition json_numbers : Json :=
  mkJson (λ text h, (Ret (VNum (Z.of_nat (String.length text))), h))
         (λ _ h, (Ret "0", h)).

(** [state(0)] in a browser whose [localStorage] holds a record for the
    key ["counter"], as in [examples/basic.ts]. *)
Definition counter_world : World :=
  mkWorld empty_heap {[0 := mkCell (VNum 0) []]} ∅ ∅ [] 0 1 true
          (mkWindow [] [] {[ "counter" := "seven.." ]} 100 [])
          json_numbers [].


(** A container with three listeners, the second of which throws. *)
Definition throwing_world : World :=
  one_cell (VNum 0) [Observer 1; UrlWriter 9 failing_codec; Observer 2].

(** * Verification *)

(** ** Evaluation of the monad *)

Lemma bind_ret {A B} (m : M A) (k : A → M B) w a w' :
  m w = (Ret a, w') → bind m k w = k a w'.
Proof. intros E. unfold bind. by rewrite E. Qed.

Lemma bind_thrown {A B} (m : M A) (k : A → M B) w e w' :
  m w = (Thrown e, w') → bind m k w = (Thrown e, w').
Proof. intros E. unfold bind. by rewrite E. Qed.

Lemma bind_assoc {A B C} (m : M A) (k : A → M B) (k' : B → M C) w :
  bind (bind m k) k' w = bind m (λ a, bind (k a) k') w.
Proof. unfold bind. destruct (m w) as [[a|e] w']; reflexivity. Qed.

(** ** The scenarios of the specification, run *)

Example set_then_get : counter_demo.1 = Ret (VNum 6).
Proof. vm_compute. reflexivity. Qed.

Example nan_is_not_identical_to_itself :
  strict_eq VNaN VNaN = false
  ∧ calls (trace (set (SBase 0) (Lit VNaN) (one_cell VNaN [Observer 1])).2)
    = [(UserFn 1, VNaN)].
Proof. split; vm_compute; reflexivity. Qed.

Example url_hydration_and_outbound_sync :
  let w := (withUrlParams plain_codec (SBase 0) search_world).2 in
  own_props (heap w) (current (cell_at 0 w)) !! "q" = Some (VStr "tea")
  ∧ own_props (heap w) (current (cell_at 0 w)) !! "page" = Some (VNum 1)
  ∧ location_search (window w) = [("q", "tea"); ("page", "1")].
Proof. repeat split; vm_compute; reflexivity. Qed.

Example quota_failure_keeps_value :
  let w := (set (SBase 0) (Lit (VNum 3)) full_storage_world).2 in
  current (cell_at 0 w) = VNum 3 ∧ localStorage (window w) = ∅.
Proof. split; vm_compute; reflexivity. Qed.

(** ** Composition (C1) *)

Lemma reduce_snoc f enhancers enhancer acc w :
  reduce f (enhancers ++ [enhancer]) acc w
  = bind (reduce f enhancers acc) (λ s, f s enhancer) w.
Proof.
  revert acc w. induction enhancers as [|e es IH]; intros acc w; simpl.
  - unfold bind, ret. destruct (f acc enhancer w) as [[s|err] w']; reflexivity.
  - rewrite bind_assoc.
    destruct (f acc e w) as [[s|err] w'] eqn:E.
    + rewrite !(bind_ret _ _ _ _ _ E). apply IH.
    + by rewrite !(bind_thrown _ _ _ _ _ E).
Qed.

(** C1. [compose(base, e1, ..., en)] is the left-to-right nesting
    [en(...(e2(e1(base))))]: the same result and the same effects, in the
    same order, from every starting world; and [enhance(e1, ..., en)] is a
    function that maps every base container to
    [compose(base, e1, ..., en)]. *)
Theorem compose_left_to_right (base : State) (enhancers : list Enhancer)
  (w : World) :
  compose base enhancers w = nested_application (rev enhancers) base w
  ∧ enhance enhancers base w = compose base enhancers w.
Proof.
  split; [| reflexivity].
  revert w. induction enhancers as [|e es IH] using rev_ind; intros w.
  - reflexivity.
  - rewrite rev_app_distr. simpl. unfold compose in *.
    rewrite reduce_snoc. unfold bind. rewrite IH.
    destruct (nested_application (rev es) base w) as [[s|err] w']; reflexivity.
Qed.

(** ** Listener bodies leave the containers alone *)

(** Case analysis on the scrutinee of an innermost [match] of the goal. *)
Ltac destruct_match :=
  match goal with
  | |- context [match ?x with _ => _ end] =>
      lazymatch x with
      | context [match _ with _ => _ end] => fail
      | _ => destruct x eqn:?
      end
  end.

(** Unfolding of the monad and of the host primitives. *)
Ltac unfold_m :=
  repeat (progress
            (unfold try_catch, lift_heap, Object_entries, write_params, setItem,
               getItem,
               addEventListener, removeEventListener, get_window, put_window,
               log, fresh, throw, ret, bind; simpl)).

Lemma run_callback_cells cb v w : cells (run_callback cb v w).2 = cells w.
Proof.
  destruct cb; simpl; unfold_m; repeat (destruct_match; simpl); reflexivity.
Qed.

Lemma run_callback_calls cb v w :
  calls (trace (run_callback cb v w).2) = calls (trace w).
Proof.
  destruct cb; simpl; unfold_m; repeat (destruct_match; simpl);
    try reflexivity.
  unfold calls. rewrite omap_app. simpl. by rewrite app_nil_r.
Qed.

Lemma cell_at_ext c w w' : cells w = cells w' → cell_at c w = cell_at c w'.
Proof. unfold cell_at. by intros ->. Qed.

Lemma calls_snoc_called tr f v : calls (tr ++ [Called f v]) = calls tr ++ [(f, v)].
Proof. unfold calls. by rewrite omap_app. Qed.

Lemma calls_to_app f tr1 tr2 :
  calls_to f (tr1 ++ tr2) = calls_to f tr1 ++ calls_to f tr2.
Proof. unfold calls_to, calls. by rewrite omap_app, filter_app, fmap_app. Qed.

Lemma invoke_unfold cb v w :
  invoke cb v w
  = run_callback cb v (with_trace (trace w ++ [Called (cb_ref cb) v]) w).
Proof. reflexivity. Qed.

(** ** The notification loop of [set] *)

Lemma notify_cells c ls w : cells (notify c ls w).2 = cells w.
Proof.
  revert w. induction ls as [|cb ls IH]; intros w; [reflexivity|].
  unfold notify in *. simpl. unfold bind at 1.
  destruct (bind (read_current c) _ w) as [[[]|e] w1] eqn:E; simpl.
  - rewrite IH. unfold bind, read_current in E.
    rewrite invoke_unfold in E.
    pose proof (run_callback_cells cb (current (cell_at c w))
      (with_trace (trace w ++ [Called (cb_ref cb) (current (cell_at c w))]) w))
      as Hc.
    rewrite E in Hc. exact Hc.
  - unfold bind, read_current in E. rewrite invoke_unfold in E.
    pose proof (run_callback_cells cb (current (cell_at c w))
      (with_trace (trace w ++ [Called (cb_ref cb) (current (cell_at c w))]) w))
      as Hc.
    rewrite E in Hc. exact Hc.
Qed.

(** When no listener throws, each one is called once with the current
    value, in the order of the list. *)
Lemma notify_all c ls w :
  Forall returns_normally ls →
  ∃ w', notify c ls w = (Ret tt, w')
        ∧ cells w' = cells w
        ∧ calls (trace w')
          = calls (trace w) ++ ((λ cb, (cb_ref cb, current (cell_at c w))) <$> ls).
Proof.
  revert w. induction ls as [|cb ls IH]; intros w Hall.
  - exists w. simpl. by rewrite app_nil_r.
  - inversion Hall as [|? ? Hcb Hls]; subst.
    set (v := current (cell_at c w)).
    set (w0 := with_trace (trace w ++ [Called (cb_ref cb) v]) w).
    destruct (run_callback cb v w0) as [o w1] eqn:E.
    pose proof (Hcb v w0) as Hret. rewrite E in Hret. simpl in Hret. subst o.
    pose proof (run_callback_cells cb v w0) as Hc1. rewrite E in Hc1.
    pose proof (run_callback_calls cb v w0) as Ht1. rewrite E in Ht1.
    simpl in Hc1, Ht1.
    destruct (IH w1 Hls) as (w' & Hrun & Hc & Ht).
    exists w'. split; [|split].
    + unfold notify in *. simpl. unfold bind at 1.
      assert (bind (read_current c) (λ v0, invoke cb v0) w = (Ret tt, w1)) as ->.
      { unfold bind, read_current. rewrite invoke_unfold. exact E. }
      exact Hrun.
    + by rewrite Hc.
    + rewrite Ht, Ht1, (cell_at_ext c w1 w0 Hc1). subst w0. simpl.
      by rewrite calls_snoc_called, <- app_assoc.
Qed.

(** A function object that is not in the list is not called. *)
Lemma notify_not_registered c ls f w :
  f ∉ cb_ref <$> ls →
  calls_to f (trace (notify c ls w).2) = calls_to f (trace w).
Proof.
  revert w. induction ls as [|cb ls IH]; intros w Hnot; [reflexivity|].
  rewrite fmap_cons, not_elem_of_cons in Hnot. destruct Hnot as [Hne Hnot].
  set (v := current (cell_at c w)).
  set (w0 := with_trace (trace w ++ [Called (cb_ref cb) v]) w).
  assert (calls_to f (trace (run_callback cb v w0).2) = calls_to f (trace w))
    as Hstep.
  { unfold calls_to. rewrite run_callback_calls. subst w0. simpl.
    rewrite calls_snoc_called, filter_app, fmap_app.
    rewrite filter_cons_False, filter_nil by (simpl; congruence).
    by rewrite app_nil_r. }
  unfold notify in *. simpl. unfold bind at 1.
  assert (bind (read_current c) (λ v0, invoke cb v0) w = run_callback cb v w0)
    as -> by reflexivity.
  destruct (run_callback cb v w0) as [[[]|e] w1]; simpl in *.
  - rewrite IH by assumption. exact Hstep.
  - exact Hstep.
Qed.

(** ** The base container: [set] (C2) *)

Lemma with_heap_id w : with_heap (heap w) w = w.
Proof. by destruct w. Qed.

Lemma cell_at_insert c cell cs w :
  cell_at c (with_cells (<[c := cell]> cs) w) = cell.
Proof. unfold cell_at. simpl. by rewrite lookup_insert_eq. Qed.

Lemma cell_at_insert_ne c c' cell cs w :
  c ≠ c' → cell_at c' (with_cells (<[c := cell]> cs) w)
           = default empty_cell (cs !! c').
Proof. intros Hne. unfold cell_at. simpl. by rewrite lookup_insert_ne. Qed.

Lemma state_set_unfold c valueOrUpdater w :
  let cur := current (cell_at c w) in
  let ls := listeners (cell_at c w) in
  let nh := candidate valueOrUpdater cur (heap w) in
  state_set c valueOrUpdater w
  = if strict_eq nh.1 cur then (Ret tt, with_heap nh.2 w)
    else notify c ls
           (with_cells (<[c := mkCell nh.1 ls]> (cells w)) (with_heap nh.2 w)).
Proof.
  intros cur ls nh. subst cur ls nh.
  unfold state_set, bind at 1, read_current. unfold bind at 1.
  destruct valueOrUpdater as [v|f]; simpl.
  - unfold ret at 1. rewrite with_heap_id.
    destruct (strict_eq v (current (cell_at c w))); simpl; [reflexivity|].
    unfold bind, write_current, read_listeners. simpl.
    by rewrite cell_at_insert.
  - destruct (f (current (cell_at c w)) (heap w)) as [v h]. simpl.
    destruct (strict_eq v (current (cell_at c w))); simpl; [reflexivity|].
    unfold bind, write_current, read_listeners. simpl.
    by rewrite cell_at_insert.
Qed.

Lemma state_set_notifies c valueOrUpdater w :
  let cur := current (cell_at c w) in
  let ls := listeners (cell_at c w) in
  let next := (candidate valueOrUpdater cur (heap w)).1 in
  Forall returns_normally ls →
  ∃ w', state_set c valueOrUpdater w = (Ret tt, w')
    ∧ if strict_eq next cur
      then cells w' = cells w ∧ trace w' = trace w
      else cells w' = <[c := mkCell next ls]> (cells w)
           ∧ current (cell_at c w') = next
           ∧ calls (trace w') = calls (trace w) ++ ((λ cb, (cb_ref cb, next)) <$> ls).
Proof.
  intros cur ls next Hls.
  pose proof (state_set_unfold c valueOrUpdater w) as Hset. simpl in Hset.
  fold cur ls in Hset. fold next in Hset. rewrite Hset. clear Hset.
  destruct (strict_eq next cur).
  - eexists. split; [reflexivity|]. by split.
  - set (w1 := with_cells _ _).
    destruct (notify_all c ls w1 Hls) as (w' & Hrun & Hc & Ht).
    exists w'. split; [exact Hrun|]. split; [|split].
    + rewrite Hc. reflexivity.
    + rewrite (cell_at_ext c w' w1 Hc). subst w1. by rewrite cell_at_insert.
    + rewrite Ht. subst w1. by rewrite cell_at_insert.
Qed.

(** C2. [set] on a container made by [state]: the candidate (the literal,
    or the updater applied to the current value) is compared with the
    current value by [===].  If they are identical nothing is stored and
    no listener is called.  Otherwise the candidate becomes the current
    value and every registered listener is called with it, in
    registration order, before [set] returns (listeners are taken to
    return normally). *)
Theorem set_stores_and_notifies_iff_different (c : nat)
  (valueOrUpdater : SetArg) (w : World) :
  let cur := current (cell_at c w) in
  let ls := listeners (cell_at c w) in
  let next := (candidate valueOrUpdater cur (heap w)).1 in
  Forall returns_normally ls →
  ∃ w', set (SBase c) valueOrUpdater w = (Ret tt, w')
    ∧ if strict_eq next cur
      then cells w' = cells w ∧ trace w' = trace w
      else cells w' = <[c := mkCell next ls]> (cells w)
           ∧ current (cell_at c w') = next
           ∧ calls (trace w') = calls (trace w) ++ ((λ cb, (cb_ref cb, next)) <$> ls).
Proof. intros cur ls next Hls. exact (state_set_notifies c valueOrUpdater w Hls). Qed.

Lemma set_stores_and_notifies_iff_different_witness :
  Forall returns_normally [Observer 1; Observer 2]
  ∧ ∃ w', set (SBase 0) (Lit (VNum 5))
              (one_cell (VNum 0) [Observer 1; Observer 2]) = (Ret tt, w')
          ∧ current (cell_at 0 w') = VNum 5
          ∧ calls (trace w') = [(UserFn 1, VNum 5); (UserFn 2, VNum 5)].
Proof.
  assert (Forall returns_normally [Observer 1; Observer 2]) as Hls
    by (repeat constructor).
  split; [exact Hls|].
  destruct (set_stores_and_notifies_iff_different 0 (Lit (VNum 5))
              (one_cell (VNum 0) [Observer 1; Observer 2]) Hls)
    as (w' & Hset & Hcells & Hcur & Hcalls).
  exists w'. split; [exact Hset|]. split; [exact Hcur | exact Hcalls].
Defined.

(** ** The base container: [subscribe] (C3) *)

Lemma get_root s w : get s w = (Ret (current (cell_at (root s) w)), w).
Proof. induction s; simpl; auto. Qed.

Lemma add_listener_registered c cb w :
  registered c (add_listener c cb w).2
  = if bool_decide (cb_ref cb ∈ registered c w) then registered c w
    else registered c w ++ [cb_ref cb].
Proof.
  unfold add_listener, registered. case_bool_decide; simpl; [reflexivity|].
  rewrite cell_at_insert. simpl. by rewrite fmap_app.
Qed.

Lemma add_listener_current c cb w :
  current (cell_at c (add_listener c cb w).2) = current (cell_at c w).
Proof.
  unfold add_listener. case_bool_decide; simpl; [reflexivity|].
  by rewrite cell_at_insert.
Qed.

Lemma add_listener_trace c cb w : trace (add_listener c cb w).2 = trace w.
Proof. unfold add_listener. by case_bool_decide. Qed.

Lemma add_listener_ret c cb w : (add_listener c cb w).1 = Ret tt.
Proof. unfold add_listener. by case_bool_decide. Qed.

(** [subscribe] on any container: register with the root cell, call the
    callback with the current value, hand back the unsubscribe function. *)
Lemma subscribe_unfold s cb w :
  subscribe s cb w
  = match invoke cb (current (cell_at (root s) w))
                 (add_listener (root s) cb w).2 with
    | (Ret _, w1) => (Ret (unsubscriber s (cb_ref cb)), w1)
    | (Thrown e, w1) => (Thrown e, w1)
    end.
Proof.
  induction s as [c|evt h base IH|sch base IH|slot ms base IH]; simpl;
    try exact IH.
  - pose proof (add_listener_current c cb w) as Hcur.
    pose proof (add_listener_ret c cb w) as Hret.
    unfold state_subscribe, bind, read_current, ret.
    destruct (add_listener c cb w) as [o w1]. simpl in *. subst o.
    rewrite Hcur. by destruct (invoke cb _ w1) as [[[]|e] w2].
  - unfold bind at 1. rewrite IH.
    by destruct (invoke cb _ _) as [[[]|e] w2].
Qed.

Lemma unsubscriber_unfold s f w :
  unsubscriber s f w = (Ret tt, after_unsubscribe s f w).
Proof.
  revert w. induction s as [c|evt h base IH|sch base IH|slot ms base IH];
    intros w; simpl; try apply IH.
  - reflexivity.
  - unfold bind. rewrite IH. reflexivity.
Qed.

Lemma subscribe_observer s n w :
  subscribe s (Observer n) w
  = (Ret (unsubscriber s (UserFn n)),
     with_trace (trace w ++ [Called (UserFn n) (current (cell_at (root s) w))])
                (add_listener (root s) (Observer n) w).2).
Proof.
  rewrite subscribe_unfold, invoke_unfold. simpl.
  by rewrite add_listener_trace.
Qed.

Lemma after_unsubscribe_cells s f w :
  cells (after_unsubscribe s f w) = cells (delete_listener (root s) f w).2.
Proof. induction s; simpl; auto. Qed.

Lemma after_unsubscribe_trace s f w : trace (after_unsubscribe s f w) = trace w.
Proof. induction s; simpl; auto. Qed.

Lemma delete_listener_registered c f w :
  registered c (delete_listener c f w).2 = filter (λ g, g ≠ f) (registered c w).
Proof.
  unfold delete_listener, registered. simpl. rewrite cell_at_insert. simpl.
  induction (listeners (cell_at c w)) as [|cb ls IH]; [reflexivity|].
  rewrite fmap_cons, !filter_cons. simpl.
  destruct (decide (cb_ref cb ≠ f)); rewrite ?fmap_cons; by rewrite IH.
Qed.

Lemma after_unsubscribe_registered s f w :
  registered (root s) (after_unsubscribe s f w)
  = filter (λ g, g ≠ f) (registered (root s) w).
Proof.
  rewrite <- delete_listener_registered. unfold registered.
  f_equal. f_equal. apply cell_at_ext, after_unsubscribe_cells.
Qed.

Lemma filter_idemp {A} (P : A → Prop) `{∀ x, Decision (P x)} (l : list A) :
  filter P (filter P l) = filter P l.
Proof.
  induction l as [|x l IH]; [reflexivity|].
  rewrite filter_cons. destruct (decide (P x)) as [Hx|Hx]; [|exact IH].
  rewrite filter_cons. destruct (decide (P x)); [by rewrite IH | done].
Qed.

Lemma delete_listener_idemp c f w :
  cells (delete_listener c f (delete_listener c f w).2).2
  = cells (delete_listener c f w).2.
Proof.
  unfold delete_listener. simpl. rewrite cell_at_insert. simpl.
  by rewrite insert_insert_eq, filter_idemp.
Qed.

Lemma delete_listener_cells_ext c f w w' :
  cells w = cells w' →
  cells (delete_listener c f w).2 = cells (delete_listener c f w').2.
Proof.
  intros Hc. unfold delete_listener. simpl.
  by rewrite (cell_at_ext c w w' Hc), Hc.
Qed.

(** A write calls only the function objects registered with the cell, and
    leaves the registrations as they are. *)
Lemma state_set_not_registered c arg f w :
  f ∉ registered c w →
  calls_to f (trace (state_set c arg w).2) = calls_to f (trace w)
  ∧ registered c (state_set c arg w).2 = registered c w.
Proof.
  intros Hnot. pose proof (state_set_unfold c arg w) as Hset. simpl in Hset.
  rewrite Hset. clear Hset.
  destruct (strict_eq _ _); [by split|].
  split.
  - rewrite notify_not_registered by exact Hnot. reflexivity.
  - unfold registered. rewrite (cell_at_ext c _ _ (notify_cells _ _ _)).
    by rewrite cell_at_insert.
Qed.

Lemma writes_not_registered c args f w :
  f ∉ registered c w →
  calls_to f (trace (writes c args w)) = calls_to f (trace w).
Proof.
  revert w. induction args as [|arg args IH]; intros w Hnot; [reflexivity|].
  unfold writes in *. simpl.
  destruct (state_set_not_registered c arg f w Hnot) as [Hcalls Hreg].
  rewrite IH by (by rewrite Hreg). exact Hcalls.
Qed.

(** C3. [subscribe(cb)] on any container registers [cb] with the
    container's cell (once, at the end of the listeners, unless it is
    there already), calls [cb] exactly once, with the value that [get]
    returns, before it returns, and returns an unsubscribe function.
    That function returns normally whenever it is called and leaves [cb]
    unregistered; a second call changes nothing in the container; and no
    later write to the cell calls [cb]. *)
Theorem subscribe_replays_then_unsubscribes (s : State) (n : nat) (w : World) :
  let c := root s in
  ∃ unsub w1,
    subscribe s (Observer n) w = (Ret unsub, w1)
    ∧ registered c w1
      = (if bool_decide (UserFn n ∈ registered c w) then registered c w
         else registered c w ++ [UserFn n])
    ∧ UserFn n ∈ registered c w1
    ∧ get s w = (Ret (current (cell_at c w)), w)
    ∧ trace w1 = trace w ++ [Called (UserFn n) (current (cell_at c w))]
    ∧ ∀ w2, ∃ w3 w4,
        unsub w2 = (Ret tt, w3)
        ∧ (UserFn n ∉ registered c w3)
        ∧ trace w3 = trace w2
        ∧ unsub w3 = (Ret tt, w4)
        ∧ cells w4 = cells w3
        ∧ trace w4 = trace w3
        ∧ ∀ args, calls_to (UserFn n) (trace (writes c args w3))
                  = calls_to (UserFn n) (trace w3).
Proof.
  intros c. pose proof (subscribe_observer s n w) as Hsub.
  pose proof (unsubscriber_unfold s (UserFn n)) as Hun.
  fold c in Hsub.
  assert (registered c
            (with_trace (trace w ++ [Called (UserFn n) (current (cell_at c w))])
                        (add_listener c (Observer n) w).2)
          = (if bool_decide (UserFn n ∈ registered c w) then registered c w
             else registered c w ++ [UserFn n])) as Hreg.
  { exact (add_listener_registered c (Observer n) w). }
  eexists _, _. split; [exact Hsub|].
  split; [exact Hreg|]. split; [|split; [apply get_root|split; [reflexivity|]]].
  - rewrite Hreg. case_bool_decide; [assumption|].
    apply elem_of_app. right. apply list_elem_of_singleton. reflexivity.
  - intros w2.
    assert (∀ w', UserFn n ∉ registered c (after_unsubscribe s (UserFn n) w'))
      as Hgone.
    { intros w'. subst c. rewrite after_unsubscribe_registered.
      intros Hin. apply list_elem_of_filter in Hin. by destruct Hin. }
    exists (after_unsubscribe s (UserFn n) w2),
           (after_unsubscribe s (UserFn n) (after_unsubscribe s (UserFn n) w2)).
    split; [apply Hun|]. split; [apply Hgone|].
    split; [apply after_unsubscribe_trace|]. split; [apply Hun|].
    split; [|split; [apply after_unsubscribe_trace|]].
    + rewrite !after_unsubscribe_cells.
      rewrite (delete_listener_cells_ext _ _ _ (delete_listener (root s) (UserFn n) w2).2)
        by apply after_unsubscribe_cells.
      apply delete_listener_idemp.
    + intros args. apply writes_not_registered, Hgone.
Qed.

(** ** The validation gate (C4) *)

(** C4. When the schema rejects the candidate of a [set] call on a
    container enhanced by [withValidation] (its result is [{ issues }],
    listing at least one issue), the call throws the validation error
    carrying those issues; no cell, no pending timer and no listener has
    been touched, and [get] afterwards returns the value it returned
    before the call. *)
Theorem validation_rejects_before_any_write (schema : Schema) (base : State)
  (valueOrUpdater : SetArg) (w : World) (issues : list Issue) (h' : Heap) :
  let cur := current (cell_at (root base) w) in
  let nh := candidate valueOrUpdater cur (heap w) in
  validate schema nh.1 nh.2 = (Rejected issues, h') →
  issues ≠ [] →
  ∃ w', set (SValidation schema base) valueOrUpdater w
        = (Thrown (ValidationFailed issues), w')
    ∧ 1 ≤ length issues
    ∧ cells w' = cells w
    ∧ timers w' = timers w
    ∧ trace w' = trace w
    ∧ get (SValidation schema base) w = (Ret cur, w)
    ∧ get (SValidation schema base) w' = (Ret cur, w').
Proof.
  intros cur nh Hrej Hne.
  exists (with_heap h' w).
  split; [|split; [|repeat split]].
  - simpl. destruct valueOrUpdater as [v|f]; simpl in *.
    + unfold bind at 1. unfold ret at 1. unfold bind. simpl.
      subst nh. simpl in Hrej. rewrite Hrej. reflexivity.
    + rewrite bind_assoc. unfold bind at 1. rewrite get_root. fold cur.
      unfold bind at 1. subst nh. simpl in Hrej.
      destruct (f cur (heap w)) as [v h1] eqn:Ef. simpl in *.
      unfold bind. simpl. rewrite Hrej. reflexivity.
  - destruct issues; [done | simpl; lia].
  - simpl. apply get_root.
  - simpl. rewrite get_root. reflexivity.
Qed.

Lemma validation_rejects_before_any_write_witness :
  validate name_schema (VObj 1) (heap person_world)
  = (Rejected [name_issue], heap person_world)
  ∧ [name_issue] ≠ []
  ∧ ∃ w', set (SValidation name_schema (SBase 0)) (Lit (VObj 1)) person_world
          = (Thrown (ValidationFailed [name_issue]), w')
          ∧ get (SValidation name_schema (SBase 0)) w' = (Ret (VObj 0), w').
Proof.
  assert (validate name_schema (VObj 1) (heap person_world)
          = (Rejected [name_issue], heap person_world)) as Hrej
    by (vm_compute; reflexivity).
  assert ([name_issue] ≠ []) as Hne by discriminate.
  split; [exact Hrej|]. split; [exact Hne|].
  destruct (validation_rejects_before_any_write name_schema (SBase 0)
              (Lit (VObj 1)) person_world [name_issue] (heap person_world)
              Hrej Hne)
    as (w' & Hset & _ & _ & _ & _ & _ & Hget).
  exists w'. split; [exact Hset | exact Hget].
Defined.

(** ** The side-effect runner (C6) *)

Lemma effect_calls_app effect tr1 tr2 :
  effect_calls effect (tr1 ++ tr2)
  = effect_calls effect tr1 ++ effect_calls effect tr2.
Proof. unfold effect_calls. by rewrite omap_app. Qed.

(** Composition with [withEffect] calls the effect through the replay of
    its own subscription, whatever [immediate] is; with [immediate] it
    has called it once more before. *)
Lemma withEffect_composition_calls (effect : nat) (immediate : bool)
  (base : State) (w : World) :
  let v := current (cell_at (root base) w) in
  ∃ w', withEffect effect immediate base w = (Ret base, w')
    ∧ effect_calls effect (trace w')
      = effect_calls effect (trace w)
        ++ (if immediate then [(v, v); (v, v)] else [(v, v)]).
Proof.
  intros v. unfold withEffect. unfold bind at 1. rewrite get_root. fold v.
  unfold bind at 1. unfold fresh at 1. unfold bind at 1. cbn beta iota.
  unfold bind at 1.
  destruct immediate.
  - unfold call_effect, log. unfold bind at 1, fresh. unfold bind at 1.
    rewrite subscribe_unfold, invoke_unfold. unfold add_listener.
    case_bool_decide; simpl; unfold bind, log, ret; simpl;
      rewrite lookup_insert_eq; simpl;
      (eexists; split; [reflexivity|]); simpl;
      rewrite <- !app_assoc, !effect_calls_app; simpl;
      rewrite bool_decide_eq_true_2 by reflexivity; reflexivity.
  - unfold ret at 1. unfold bind at 1, fresh. unfold bind at 1.
    rewrite subscribe_unfold, invoke_unfold. unfold add_listener.
    case_bool_decide; simpl; unfold bind, log, ret; simpl;
      rewrite lookup_insert_eq; simpl;
      (eexists; split; [reflexivity|]); simpl;
      rewrite <- !app_assoc, !effect_calls_app; simpl;
      rewrite bool_decide_eq_true_2 by reflexivity; reflexivity.
Qed.

(** C6, evaluated.  [compose(state(0), withEffect(effect))] without
    [immediate] has already called [effect(0, 0)] once when composition
    returns, and with [immediate] it has called it twice; the later
    writes [set(1)] and [set(2)] call [effect(1, 0)] and [effect(2, 1)]. *)
Theorem withEffect_runs_effect_at_composition :
  effect_calls 7 (trace (effect_demo false).2) = [(VNum 0, VNum 0)]
  ∧ effect_calls 7 (trace (effect_demo true).2)
    = [(VNum 0, VNum 0); (VNum 0, VNum 0)]
  ∧ effect_calls 7 (trace (effect_demo_writes false))
    = [(VNum 0, VNum 0); (VNum 1, VNum 0); (VNum 2, VNum 1)].
Proof. repeat split; vm_compute; reflexivity. Qed.

(** ** Teardown of the URL enhancers (C7) *)

Lemma after_unsubscribe_ext_listeners evt handler base f w :
  event_listeners (window (after_unsubscribe (SExt evt handler base) f w))
  = filter (λ h, ¬ listens evt handler h)
           (event_listeners (window (after_unsubscribe base f w))).
Proof. reflexivity. Qed.

Lemma location_enhancer_result evt codec base w s w1 :
  window_defined w = true →
  location_enhancer evt codec base w = (Ret s, w1) →
  ∃ handler, s = SExt evt handler base
             ∧ mkHandler evt handler codec base ∈ event_listeners (window w1).
Proof.
  intros Hwin Hrun.
  destruct evt; simpl in Hrun; unfold withUrlParams, withHashParams in Hrun;
    rewrite Hwin in Hrun; simpl in Hrun;
    unfold bind at 1 in Hrun;
    destruct (sync_from_location _ codec base w) as [[[]|e] wa];
    try discriminate;
    unfold bind at 1, fresh in Hrun; unfold bind at 1 in Hrun;
    destruct (subscribe base _ _) as [[unsub|e] wb]; try discriminate;
    unfold bind, addEventListener, get_window, put_window, ret in Hrun;
    simpl in Hrun; inversion Hrun; subst; clear Hrun;
    eexists; (split; [reflexivity|]); simpl;
    apply elem_of_app; right; apply list_elem_of_singleton; reflexivity.
Qed.

(** C7. In a browser, the container returned by [withUrlParams] or
    [withHashParams] has one external listener ([popstate] /
    [hashchange]) registered at composition.  The unsubscribe function
    returned by any one [subscribe] call on it removes that subscriber's
    callback and also removes this external listener, while every other
    subscriber stays registered. *)
Theorem any_unsubscribe_removes_external_listener (evt : ExtEvent)
  (codec : Codec) (base s : State) (w w1 : World) :
  window_defined w = true →
  location_enhancer evt codec base w = (Ret s, w1) →
  ∃ handler,
    s = SExt evt handler base
    ∧ mkHandler evt handler codec base ∈ event_listeners (window w1)
    ∧ ∀ n w2, ∃ unsub w3,
        subscribe s (Observer n) w2 = (Ret unsub, w3)
        ∧ ∀ w4, ∃ w5,
            unsub w4 = (Ret tt, w5)
            ∧ (UserFn n ∉ registered (root s) w5)
            ∧ (∀ h, h ∈ event_listeners (window w5) → ¬ listens evt handler h)
            ∧ (∀ g, g ≠ UserFn n → g ∈ registered (root s) w4 →
                    g ∈ registered (root s) w5).
Proof.
  intros Hwin Hrun.
  destruct (location_enhancer_result evt codec base w s w1 Hwin Hrun)
    as (handler & -> & Hin).
  exists handler. split; [reflexivity|]. split; [exact Hin|].
  intros n w2. eexists _, _. split; [apply subscribe_observer|].
  intros w4. eexists. split; [apply unsubscriber_unfold|].
  split; [|split].
  - rewrite after_unsubscribe_registered.
    intros Hmem. apply list_elem_of_filter in Hmem. by destruct Hmem.
  - intros h Hh. rewrite after_unsubscribe_ext_listeners in Hh.
    apply list_elem_of_filter in Hh. by destruct Hh.
  - intros g Hne Hg. rewrite after_unsubscribe_registered.
    apply list_elem_of_filter. by split.
Qed.

(** With both subscribers in place a navigation reaches the container;
    once the first has unsubscribed the second is still registered, but
    the [popstate] listener is gone and the navigation is not seen. *)
Example teardown_stops_inbound_sync :
  teardown_demo false = (Some (VStr "milk"), [Closure 1; UserFn 1; UserFn 2], 1)
  ∧ teardown_demo true = (Some (VStr "tea"), [Closure 1; UserFn 2], 0).
Proof. split; vm_compute; reflexivity. Qed.

Lemma any_unsubscribe_removes_external_listener_witness :
  window_defined search_world = true
  ∧ withUrlParams plain_codec (SBase 0) search_world
    = (Ret (SExt Popstate 2 (SBase 0)),
       (withUrlParams plain_codec (SBase 0) search_world).2)
  ∧ ∃ handler,
      mkHandler Popstate handler plain_codec (SBase 0)
      ∈ event_listeners
          (window (withUrlParams plain_codec (SBase 0) search_world).2).
Proof.
  assert (window_defined search_world = true) as Hwin by reflexivity.
  assert (location_enhancer Popstate plain_codec (SBase 0) search_world
          = (Ret (SExt Popstate 2 (SBase 0)),
             (withUrlParams plain_codec (SBase 0) search_world).2)) as Hrun
    by (vm_compute; reflexivity).
  split; [exact Hwin|]. split; [exact Hrun|].
  destruct (any_unsubscribe_removes_external_listener Popstate plain_codec
              (SBase 0) _ search_world _ Hwin Hrun)
    as (handler & _ & Hin & _).
  exists handler. exact Hin.
Defined.

(** ** Hydration (C8) *)

Lemma strict_eq_eq a b : strict_eq a b = true → a = b.
Proof.
  destruct a, b; simpl; try discriminate; try reflexivity;
    intros Hb; apply bool_decide_eq_true in Hb; by subst.
Qed.

Lemma merge_decoded_unfold base decoded w :
  let cur := current (cell_at (root base) w) in
  let h := heap w in
  merge_decoded base decoded w
  = set base (Lit (VObj (next_ref h)))
        (with_heap (mkHeap (<[next_ref h := own_props h decoded ∪ own_props h cur]>
                              (objects h))
                           (S (next_ref h))) w).
Proof.
  intros cur h. unfold merge_decoded. unfold bind at 1. rewrite get_root.
  unfold bind at 1. simpl. reflexivity.
Qed.

Lemma union_shallow_merge h cur decoded :
  shallow_merge h cur decoded (own_props h decoded ∪ own_props h cur).
Proof.
  intros k. rewrite lookup_union.
  destruct (own_props h decoded !! k), (own_props h cur !! k); reflexivity.
Qed.

Lemma sync_from_location_unfold evt codec base w decoded h1 :
  decode codec (VObj (next_ref (heap w)))
         (alloc (collect (params_at evt w)) (heap w)).2 = (Ret decoded, h1) →
  sync_from_location evt codec base w = merge_decoded base decoded (with_heap h1 w).
Proof.
  intros Hdec. unfold sync_from_location, read_params.
  unfold bind at 1. unfold bind at 1. unfold get_window, ret at 1.
  unfold bind at 1. unfold lift_heap at 1. simpl.
  unfold bind at 1. unfold lift_heap at 1. simpl.
  destruct evt; simpl in *; rewrite Hdec; reflexivity.
Qed.

Lemma hydrate_from_storage_unfold key codec base w text parsed h0 decoded h1 :
  localStorage (window w) !! key = Some text →
  text ≠ "" →
  JSON_parse (JSON w) text (heap w) = (Ret parsed, h0) →
  decode codec parsed h0 = (Ret decoded, h1) →
  hydrate_from_storage key codec base w
  = merge_decoded base decoded (with_heap h1 w).
Proof.
  intros Hget Hne Hparse Hdec. unfold hydrate_from_storage, getItem.
  unfold bind at 1. unfold bind at 1. unfold get_window, ret at 1.
  rewrite Hget. rewrite bool_decide_eq_false_2 by exact Hne.
  unfold bind at 1. unfold lift_heap at 1. rewrite Hparse.
  unfold bind at 1. unfold lift_heap at 1. simpl. rewrite Hdec.
  reflexivity.
Qed.

(** Writing a literal to a cell leaves it holding that literal, whatever
    the listeners do. *)
Lemma state_set_lit_current c v w :
  current (cell_at c (state_set c (Lit v) w).2) = v.
Proof.
  pose proof (state_set_unfold c (Lit v) w) as Hset. simpl in Hset.
  rewrite Hset. clear Hset.
  destruct (strict_eq v (current (cell_at c w))) eqn:E; simpl.
  - apply strict_eq_eq in E. by rewrite with_heap_id.
  - rewrite (cell_at_ext c _ _ (notify_cells _ _ _)). by rewrite cell_at_insert.
Qed.

Lemma add_listener_current_any c c' cb w :
  current (cell_at c' (add_listener c cb w).2) = current (cell_at c' w).
Proof.
  unfold add_listener. case_bool_decide; simpl; [reflexivity|].
  destruct (decide (c = c')) as [->|Hne].
  - by rewrite cell_at_insert.
  - by rewrite cell_at_insert_ne.
Qed.

(** Subscribing changes no container's value. *)
Lemma subscribe_current s cb c w :
  current (cell_at c (subscribe s cb w).2) = current (cell_at c w).
Proof.
  rewrite subscribe_unfold, invoke_unfold.
  set (w0 := with_trace _ _).
  pose proof (run_callback_cells cb (current (cell_at (root s) w)) w0) as Hc.
  destruct (run_callback cb _ w0) as [[[]|e] w1]; simpl in *;
    rewrite (cell_at_ext c w1 w0 Hc); subst w0;
    apply (add_listener_current_any (root s) c cb w).
Qed.

Lemma location_enhancer_current evt codec base c w :
  window_defined w = true →
  current (cell_at c (location_enhancer evt codec base w).2)
  = current (cell_at c (sync_from_location evt codec base w).2).
Proof.
  intros Hwin.
  assert (∃ v, current (cell_at c (sync_from_location evt codec base w).2) = v)
    as [v Hcur] by eauto.
  rewrite Hcur.
  destruct evt; simpl; unfold withUrlParams, withHashParams; rewrite Hwin;
    simpl; unfold bind at 1;
    destruct (sync_from_location _ codec base w) as [[[]|e] wa];
    simpl in *; try exact Hcur;
    unfold bind at 1, fresh; unfold bind at 1;
    match goal with
    | |- context [subscribe ?s ?cb ?w0] =>
        pose proof (subscribe_current s cb c w0) as Hsub;
        destruct (subscribe s cb w0) as [[unsub|e] wb]
    end;
    (etrans; [|exact Hcur]); (etrans; [|exact Hsub]); reflexivity.
Qed.

Lemma withStorage_current key codec base c w :
  window_defined w = true →
  current (cell_at c (withStorage key codec base w).2)
  = current (cell_at c (hydrate_from_storage key codec base w).2).
Proof.
  intros Hwin.
  assert (∃ v, current (cell_at c (hydrate_from_storage key codec base w).2) = v)
    as [v Hcur] by eauto.
  rewrite Hcur. unfold withStorage. rewrite Hwin. simpl.
  unfold bind at 1, try_catch.
  destruct (hydrate_from_storage key codec base w) as [[[]|e] wa];
    simpl in *;
    unfold bind at 1, fresh; unfold bind at 1;
    match goal with
    | |- context [subscribe ?s ?cb ?w0] =>
        pose proof (subscribe_current s cb c w0) as Hsub;
        destruct (subscribe s cb w0) as [[unsub|e'] wb]
    end;
    (etrans; [|exact Hcur]); (etrans; [|exact Hsub]); reflexivity.
Qed.

(** C8. Hydration of the three external-sync enhancers: the external
    surface is decoded through the codec, a fresh object is built whose
    fields are those of the decoded value and, for every field the decoded
    value lacks, the field of the inner container's current value, and
    that object is handed to the inner container's [set].  When the inner
    container is a plain [state] container it holds that object when
    composition is over. *)
Theorem hydration_merges_decoded_over_current (codec : Codec) (base : State)
  (w : World) (decoded : Value) (h1 : Heap) :
  let cur := current (cell_at (root base) w) in
  let merged := own_props h1 decoded ∪ own_props h1 cur in
  let hydrated :=
    with_heap (mkHeap (<[next_ref h1 := merged]> (objects h1)) (S (next_ref h1))) w in
  window_defined w = true →
  shallow_merge h1 cur decoded merged
  ∧ (∀ evt,
       decode codec (VObj (next_ref (heap w)))
              (alloc (collect (params_at evt w)) (heap w)).2 = (Ret decoded, h1) →
       sync_from_location evt codec base w
       = set base (Lit (VObj (next_ref h1))) hydrated
       ∧ ∀ c, base = SBase c →
              current (cell_at c (location_enhancer evt codec base w).2)
              = VObj (next_ref h1))
  ∧ (∀ key text parsed h0,
       localStorage (window w) !! key = Some text →
       text ≠ "" →
       JSON_parse (JSON w) text (heap w) = (Ret parsed, h0) →
       decode codec parsed h0 = (Ret decoded, h1) →
       hydrate_from_storage key codec base w
       = set base (Lit (VObj (next_ref h1))) hydrated
       ∧ ∀ c, base = SBase c →
              current (cell_at c (withStorage key codec base w).2)
              = VObj (next_ref h1)).
Proof.
  intros cur merged hydrated Hwin.
  split; [apply union_shallow_merge|]. split.
  - intros evt Hdec.
    assert (sync_from_location evt codec base w
            = set base (Lit (VObj (next_ref h1))) hydrated) as Hsync.
    { rewrite (sync_from_location_unfold _ _ _ _ _ _ Hdec).
      apply merge_decoded_unfold. }
    split; [exact Hsync|]. intros c ->.
    rewrite location_enhancer_current by exact Hwin.
    rewrite Hsync. apply state_set_lit_current.
  - intros key text parsed h0 Hget Hne Hparse Hdec.
    assert (hydrate_from_storage key codec base w
            = set base (Lit (VObj (next_ref h1))) hydrated) as Hhyd.
    { rewrite (hydrate_from_storage_unfold _ _ _ _ _ _ _ _ _ Hget Hne Hparse Hdec).
      apply merge_decoded_unfold. }
    split; [exact Hhyd|]. intros c ->.
    rewrite withStorage_current by exact Hwin.
    rewrite Hhyd. apply state_set_lit_current.
Qed.

Lemma hydration_merges_decoded_over_current_witness :
  window_defined search_world = true
  ∧ decode plain_codec (VObj 1)
           (alloc (collect [("q", "tea")]) (heap search_world)).2
    = (Ret (VObj 1), (alloc (collect [("q", "tea")]) (heap search_world)).2)
  ∧ current (cell_at 0 (withUrlParams plain_codec (SBase 0) search_world).2)
    = VObj 2
  ∧ JSON_parse json_stub "saved" (heap search_world)
    = (Ret (VObj 1), (alloc {[ "data" := VStr "saved" ]} (heap search_world)).2)
  ∧ current (cell_at 0 (withStorage "k" plain_codec (SBase 0)
                          (storage_world "saved")).2)
    = VObj 2.
Proof.
  assert (window_defined search_world = true) as Hwin by reflexivity.
  set (h1 := (alloc (collect [("q", "tea")]) (heap search_world)).2).
  set (h2 := (alloc {[ "data" := VStr "saved" ]} (heap search_world)).2).
  assert (decode plain_codec (VObj 1) h1 = (Ret (VObj 1), h1)) as Hdec
    by reflexivity.
  assert (JSON_parse json_stub "saved" (heap search_world) = (Ret (VObj 1), h2))
    as Hparse by reflexivity.
  split; [exact Hwin|]. split; [exact Hdec|]. split; [|split; [exact Hparse|]].
  - destruct (hydration_merges_decoded_over_current plain_codec (SBase 0)
                search_world (VObj 1) h1 Hwin) as (_ & Hurl & _).
    destruct (Hurl Popstate Hdec) as [_ Hcur].
    exact (Hcur 0 eq_refl).
  - destruct (hydration_merges_decoded_over_current plain_codec (SBase 0)
                (storage_world "saved") (VObj 1) h2 Hwin) as (_ & _ & Hsto).
    assert (localStorage (window (storage_world "saved")) !! "k" = Some "saved")
      as Hget by (vm_compute; reflexivity).
    assert ("saved" ≠ "") as Hne by discriminate.
    destruct (Hsto "k" "saved" (VObj 1) h2 Hget Hne Hparse eq_refl) as [_ Hcur].
    exact (Hcur 0 eq_refl).
Defined.

(** ** Storage failures (C9) *)

Lemma persister_returns id key codec : returns_normally (Persister id key codec).
Proof.
  intros v w. simpl. unfold try_catch.
  by destruct (bind _ _ w) as [[[]|e] w'].
Qed.

Lemma withStorage_returns key codec base w :
  (withStorage key codec base w).1 = Ret base.
Proof.
  unfold withStorage. destruct (window_defined w); simpl; [|reflexivity].
  unfold bind at 1.
  assert (∀ w0, ∃ w1, try_catch (hydrate_from_storage key codec base) w0
                      = (Ret tt, w1)) as Htry.
  { intros w0. unfold try_catch.
    destruct (hydrate_from_storage key codec base w0) as [[[]|e] w1]; eauto. }
  destruct (Htry w) as [w1 ->].
  unfold bind at 1, fresh. unfold bind at 1.
  rewrite subscribe_unfold, invoke_unfold.
  set (w0 := with_trace _ _).
  pose proof (persister_returns (next_id w1) key codec
                (current (cell_at (root base) (with_next_id (S (next_id w1)) w1)))
                w0) as Hret.
  destruct (run_callback _ _ w0) as [o w2]. simpl in Hret. subst o.
  reflexivity.
Qed.

Lemma hydrate_from_storage_parse_failure key codec base w text e h0 :
  localStorage (window w) !! key = Some text →
  JSON_parse (JSON w) text (heap w) = (Thrown e, h0) →
  cells (hydrate_from_storage key codec base w).2 = cells w.
Proof.
  intros Hget Hparse. unfold hydrate_from_storage, getItem.
  unfold bind at 1. unfold bind at 1. unfold get_window, ret at 1.
  rewrite Hget. case_bool_decide; [reflexivity|].
  unfold bind at 1. unfold lift_heap at 1. rewrite Hparse. reflexivity.
Qed.

Lemma hydrate_from_storage_decode_failure key codec base w text parsed e h0 h1 :
  localStorage (window w) !! key = Some text →
  JSON_parse (JSON w) text (heap w) = (Ret parsed, h0) →
  decode codec parsed h0 = (Thrown e, h1) →
  cells (hydrate_from_storage key codec base w).2 = cells w.
Proof.
  intros Hget Hparse Hdec. unfold hydrate_from_storage, getItem.
  unfold bind at 1. unfold bind at 1. unfold get_window, ret at 1.
  rewrite Hget. case_bool_decide; [reflexivity|].
  unfold bind at 1. unfold lift_heap at 1. rewrite Hparse.
  unfold bind at 1. unfold lift_heap at 1. simpl. rewrite Hdec. reflexivity.
Qed.

(** A write returns normally when every listener does, and leaves the
    cell holding the candidate (or the identical current value). *)
Lemma state_set_returns c arg w :
  Forall returns_normally (listeners (cell_at c w)) →
  ∃ w', state_set c arg w = (Ret tt, w')
        ∧ current (cell_at c w')
          = let cur := current (cell_at c w) in
            let next := (candidate arg cur (heap w)).1 in
            if strict_eq next cur then cur else next.
Proof.
  intros Hls. pose proof (state_set_unfold c arg w) as Hset. simpl in Hset.
  rewrite Hset. clear Hset. simpl.
  destruct (strict_eq _ _).
  - eexists. split; reflexivity.
  - set (w1 := with_cells _ _).
    destruct (notify_all c _ w1 Hls) as (w' & Hrun & Hc & _).
    exists w'. split; [exact Hrun|].
    rewrite (cell_at_ext c w' w1 Hc). subst w1. by rewrite cell_at_insert.
Qed.

(** C9. [withStorage]: composition returns the container whatever
    happens while hydrating; a stored record that [JSON.parse] or the
    codec rejects leaves every container's value as it was; the listener
    that persists changes returns normally whatever the codec,
    [JSON.stringify] or [localStorage.setItem] throw, and touches no
    container; so a [set] on a container whose listeners are such
    persisters (or other listeners that return normally) returns
    normally with the value stored. *)
Theorem storage_failures_are_swallowed (key : string) (codec : Codec)
  (base : State) (w : World) :
  (withStorage key codec base w).1 = Ret base
  ∧ (∀ text e h0 c,
       window_defined w = true →
       localStorage (window w) !! key = Some text →
       JSON_parse (JSON w) text (heap w) = (Thrown e, h0) →
       current (cell_at c (withStorage key codec base w).2)
       = current (cell_at c w))
  ∧ (∀ text parsed e h0 h1 c,
       window_defined w = true →
       localStorage (window w) !! key = Some text →
       JSON_parse (JSON w) text (heap w) = (Ret parsed, h0) →
       decode codec parsed h0 = (Thrown e, h1) →
       current (cell_at c (withStorage key codec base w).2)
       = current (cell_at c w))
  ∧ (∀ id v w0,
       (run_callback (Persister id key codec) v w0).1 = Ret tt
       ∧ cells (run_callback (Persister id key codec) v w0).2 = cells w0)
  ∧ (∀ c valueOrUpdater w0,
       Forall (λ cb, (∃ id, cb = Persister id key codec) ∨ returns_normally cb)
              (listeners (cell_at c w0)) →
       ∃ w', set (SBase c) valueOrUpdater w0 = (Ret tt, w')
             ∧ current (cell_at c w')
               = let cur := current (cell_at c w0) in
                 let next := (candidate valueOrUpdater cur (heap w0)).1 in
                 if strict_eq next cur then cur else next).
Proof.
  split; [apply withStorage_returns|]. split; [|split; [|split]].
  - intros text e h0 c Hwin Hget Hparse.
    rewrite withStorage_current by exact Hwin.
    f_equal. apply cell_at_ext.
    by apply (hydrate_from_storage_parse_failure _ _ _ _ text e h0).
  - intros text parsed e h0 h1 c Hwin Hget Hparse Hdec.
    rewrite withStorage_current by exact Hwin.
    f_equal. apply cell_at_ext.
    by apply (hydrate_from_storage_decode_failure _ _ _ _ text parsed e h0 h1).
  - intros id v w0. split; [apply persister_returns | apply run_callback_cells].
  - intros c arg w0 Hls. simpl. apply state_set_returns.
    eapply Forall_impl; [exact Hls|].
    intros cb [[id ->]|Hcb]; [apply persister_returns | exact Hcb].
Qed.

Lemma storage_failures_are_swallowed_witness :
  (window_defined (storage_world "!") = true
   ∧ localStorage (window (storage_world "!")) !! "k" = Some "!"
   ∧ JSON_parse (JSON (storage_world "!")) "!" (heap (storage_world "!"))
     = (Thrown (HostError "SyntaxError"), heap (storage_world "!"))
   ∧ current (cell_at 0 (withStorage "k" plain_codec (SBase 0)
                           (storage_world "!")).2)
     = VObj 0)
  ∧ (Forall (λ cb, (∃ id, cb = Persister id "k" plain_codec)
                   ∨ returns_normally cb)
            (listeners (cell_at 0 full_storage_world))
     ∧ ∃ w', set (SBase 0) (Lit (VNum 3)) full_storage_world = (Ret tt, w')
             ∧ current (cell_at 0 w') = VNum 3).
Proof.
  split.
  - assert (window_defined (storage_world "!") = true) as Hwin by reflexivity.
    assert (localStorage (window (storage_world "!")) !! "k" = Some "!") as Hget
      by (vm_compute; reflexivity).
    assert (JSON_parse (JSON (storage_world "!")) "!" (heap (storage_world "!"))
            = (Thrown (HostError "SyntaxError"), heap (storage_world "!")))
      as Hparse by reflexivity.
    split; [exact Hwin|]. split; [exact Hget|]. split; [exact Hparse|].
    destruct (storage_failures_are_swallowed "k" plain_codec (SBase 0)
                (storage_world "!")) as (_ & Hbad & _).
    exact (Hbad "!" _ _ 0 Hwin Hget Hparse).
  - assert (Forall (λ cb, (∃ id, cb = Persister id "k" plain_codec)
                          ∨ returns_normally cb)
                   (listeners (cell_at 0 full_storage_world))) as Hls.
    { assert (listeners (cell_at 0 full_storage_world)
              = [Persister 1 "k" plain_codec]) as -> by (vm_compute; reflexivity).
      constructor; [left; by exists 1 | constructor]. }
    split; [exact Hls|].
    destruct (storage_failures_are_swallowed "k" plain_codec (SBase 0)
                full_storage_world) as (_ & _ & _ & _ & Hset).
    exact (Hset 0 (Lit (VNum 3)) full_storage_world Hls).
Defined.

(** ** Debounce (C10, C5) *)

Lemma debounce_set_unfold timeout ms base valueOrUpdater w :
  set (SDebounce timeout ms base) valueOrUpdater w
  = (Ret tt,
     with_timeout_vars (<[timeout := next_id w]> (timeout_vars w))
       (with_timers
          (match timeout_vars w !! timeout with
           | Some id => filter (λ t, timer_id t ≠ id) (timers w)
           | None => timers w
           end ++ [mkTimer (next_id w) (now w + ms) base valueOrUpdater])
          (with_next_id (S (next_id w)) w))).
Proof.
  simpl. unfold bind, clearTimeout, setTimeout, fresh. simpl.
  destruct (timeout_vars w !! timeout); reflexivity.
Qed.

(** What a write leaves in the cell, whatever the listeners do. *)
Lemma state_set_current c valueOrUpdater w :
  current (cell_at c (state_set c valueOrUpdater w).2)
  = let cur := current (cell_at c w) in
    let next := (candidate valueOrUpdater cur (heap w)).1 in
    if strict_eq next cur then cur else next.
Proof.
  pose proof (state_set_unfold c valueOrUpdater w) as Hset. simpl in Hset.
  rewrite Hset. clear Hset. simpl.
  destruct (strict_eq _ _); simpl; [reflexivity|].
  rewrite (cell_at_ext c _ _ (notify_cells _ _ _)). by rewrite cell_at_insert.
Qed.

(** C10. A [set] with an updater on a debounced container does not apply
    the updater: heap, cells and trace are as before, and the pending
    timer holds the updater itself.  When the timer fires, in whatever
    world that is, it calls the inner container's [set] with the updater;
    for a plain [state] container the updater is then applied to the
    value the container holds at that moment. *)
Theorem debounce_applies_updater_when_timer_fires (timeout ms : nat)
  (base : State) (f : Value → Heap → Value * Heap) (w : World) :
  let t := mkTimer (next_id w) (now w + ms) base (Upd f) in
  (∃ w1, set (SDebounce timeout ms base) (Upd f) w = (Ret tt, w1)
         ∧ heap w1 = heap w ∧ cells w1 = cells w ∧ trace w1 = trace w
         ∧ t ∈ timers w1)
  ∧ (∀ w2, fire t w2
           = (set base (Upd f)
                (with_now (now w2 `max` due t)
                   (with_timers
                      (filter (λ t', timer_id t' ≠ timer_id t) (timers w2)) w2))).2)
  ∧ (∀ c id d w2,
       let cur := current (cell_at c w2) in
       let next := (f cur (heap w2)).1 in
       current (cell_at c (fire (mkTimer id d (SBase c) (Upd f)) w2))
       = if strict_eq next cur then cur else next).
Proof.
  intros t. split; [|split].
  - eexists. split; [apply debounce_set_unfold|]. simpl.
    repeat split. apply elem_of_app. right.
    apply list_elem_of_singleton. reflexivity.
  - reflexivity.
  - intros c id d w2. unfold fire, run_timer. simpl.
    rewrite state_set_current. reflexivity.
Qed.

(** The updater sees the write that reached the inner container while it
    was pending: [1], then [inner.set(10)], then the deferred
    [prev => prev + 1] gives [11]. *)
Example deferred_updater_sees_later_value :
  current (cell_at 0 deferred_updater_demo) = VNum 11
  ∧ calls (trace deferred_updater_demo)
    = [(UserFn 1, VNum 10); (UserFn 1, VNum 11)].
Proof. split; vm_compute; reflexivity. Qed.

(** *** Listener bodies and writes leave the timers and the clock alone *)

Lemma run_callback_timers cb v w :
  timers (run_callback cb v w).2 = timers w
  ∧ now (run_callback cb v w).2 = now w.
Proof.
  destruct cb; simpl; unfold_m; repeat (destruct_match; simpl); by split.
Qed.

Lemma notify_cons c cb ls w :
  notify c (cb :: ls) w
  = match run_callback cb (current (cell_at c w))
            (with_trace (trace w ++ [Called (cb_ref cb) (current (cell_at c w))]) w)
    with
    | (Ret _, w1) => notify c ls w1
    | (Thrown e, w1) => (Thrown e, w1)
    end.
Proof. reflexivity. Qed.

Lemma notify_timers c ls w :
  timers (notify c ls w).2 = timers w ∧ now (notify c ls w).2 = now w.
Proof.
  revert w. induction ls as [|cb ls IH]; intros w; [by split|].
  rewrite notify_cons.
  set (w0 := with_trace _ _).
  destruct (run_callback_timers cb (current (cell_at c w)) w0) as [Ht Hn].
  destruct (run_callback cb _ w0) as [[[]|e] w1]; simpl in Ht, Hn.
  - destruct (IH w1) as [Ht' Hn'].
    split; [etrans; [exact Ht'|exact Ht] | etrans; [exact Hn'|exact Hn]].
  - split; [exact Ht | exact Hn].
Qed.

Lemma state_set_timers c arg w :
  timers (state_set c arg w).2 = timers w ∧ now (state_set c arg w).2 = now w.
Proof.
  pose proof (state_set_unfold c arg w) as Hset. simpl in Hset.
  rewrite Hset. clear Hset.
  destruct (strict_eq _ _); simpl; [by split|].
  set (w1 := with_cells _ _).
  destruct (notify_timers c (listeners (cell_at c w)) w1) as [Ht Hn].
  by rewrite Ht, Hn.
Qed.

Lemma run_callback_vars cb v w :
  timeout_vars (run_callback cb v w).2 = timeout_vars w
  ∧ next_id (run_callback cb v w).2 = next_id w.
Proof.
  destruct cb; simpl; unfold_m; repeat (destruct_match; simpl); by split.
Qed.

Lemma notify_vars c ls w :
  timeout_vars (notify c ls w).2 = timeout_vars w
  ∧ next_id (notify c ls w).2 = next_id w.
Proof.
  revert w. induction ls as [|cb ls IH]; intros w; [by split|].
  rewrite notify_cons.
  set (w0 := with_trace _ _).
  destruct (run_callback_vars cb (current (cell_at c w)) w0) as [Ht Hn].
  destruct (run_callback cb _ w0) as [[[]|e] w1]; simpl in Ht, Hn.
  - destruct (IH w1) as [Ht' Hn'].
    split; [etrans; [exact Ht'|exact Ht] | etrans; [exact Hn'|exact Hn]].
  - split; [exact Ht | exact Hn].
Qed.

Lemma state_set_vars c arg w :
  timeout_vars (state_set c arg w).2 = timeout_vars w
  ∧ next_id (state_set c arg w).2 = next_id w.
Proof.
  pose proof (state_set_unfold c arg w) as Hset. simpl in Hset.
  rewrite Hset. clear Hset.
  destruct (strict_eq _ _); simpl; [by split|].
  set (w1 := with_cells _ _).
  destruct (notify_vars c (listeners (cell_at c w)) w1) as [Ht Hn].
  by rewrite Ht, Hn.
Qed.

(** *** One pending write *)

Lemma filter_older_timers (ts : list Timer) (n id : nat) :
  Forall (λ t, timer_id t < n) ts → n ≤ id →
  filter (λ t, timer_id t ≠ id) ts = ts.
Proof.
  intros Hall Hle. induction Hall as [|t ts Ht Hts IH]; [reflexivity|].
  rewrite filter_cons. destruct (decide (timer_id t ≠ id)) as [_|Heq].
  - by rewrite IH.
  - exfalso. apply Heq. lia.
Qed.

Lemma pending_elsewhere_issued timeout w0 :
  handles_issued w0 →
  Forall (λ t, timer_id t < next_id w0) (pending_elsewhere timeout w0).
Proof.
  unfold handles_issued, pending_elsewhere. intros Hall.
  destruct (timeout_vars w0 !! timeout); [|exact Hall].
  apply Forall_forall. intros t Hin. apply list_elem_of_filter in Hin as [_ Hin].
  by apply (proj1 (Forall_forall _ _) Hall).
Qed.

(** Cancelling the pending timer of the container leaves the timers of
    the others. *)
Lemma cancel_own_timer timeout ms base w0 w arg t :
  handles_issued w0 →
  one_pending timeout ms base w0 w arg t →
  filter (λ t', timer_id t' ≠ timer_id t) (timers w)
  = pending_elsewhere timeout w0.
Proof.
  intros Hall (Ht & Hid & Htm & _).
  rewrite Htm, filter_app.
  rewrite (filter_older_timers _ (next_id w0))
    by (by apply pending_elsewhere_issued || lia).
  rewrite filter_cons.
  destruct (decide (timer_id t ≠ timer_id t)) as [Hne|_]; [done|].
  apply app_nil_r.
Qed.

(** The first call of a run. *)
Lemma first_call_pending timeout ms base gap arg w0 :
  one_pending timeout ms base w0
    (set (SDebounce timeout ms base) arg (elapse gap w0)).2 arg
    (mkTimer (next_id w0) (now w0 + gap + ms) base arg).
Proof.
  rewrite debounce_set_unfold. unfold one_pending, pending_elsewhere. simpl.
  split; [reflexivity|]. split; [lia|]. split; [reflexivity|].
  split; [apply lookup_insert_eq|]. by repeat split.
Qed.

(** A call made while a write is pending replaces it. *)
Lemma next_call_pending timeout ms base gap arg arg' w0 w t :
  handles_issued w0 →
  one_pending timeout ms base w0 w arg t →
  one_pending timeout ms base w0
    (set (SDebounce timeout ms base) arg' (elapse gap w)).2 arg'
    (mkTimer (next_id w) (now w + gap + ms) base arg').
Proof.
  intros Hall Hinv.
  pose proof (cancel_own_timer _ _ _ _ _ _ _ Hall Hinv) as Hcancel.
  destruct Hinv as (Ht & Hid & Htm & Hv & Hc & Hh & Htr).
  rewrite debounce_set_unfold. unfold one_pending. simpl.
  rewrite Hv, Hcancel.
  split; [reflexivity|]. split; [lia|]. split; [reflexivity|].
  split; [apply lookup_insert_eq|]. by repeat split.
Qed.

Lemma burst_pending timeout ms base rest :
  ∀ w0 w arg t,
    handles_issued w0 →
    one_pending timeout ms base w0 w arg t →
    ∃ t', one_pending timeout ms base w0
            (burst (SDebounce timeout ms base) rest w) (final_arg arg rest) t'.
Proof.
  induction rest as [|[gap arg'] rest IH]; intros w0 w arg t Hall Hinv.
  - by exists t.
  - unfold burst, final_arg in *. simpl.
    eapply IH; [exact Hall|].
    by apply (next_call_pending _ _ _ _ arg _ _ _ t).
Qed.

(** The timer of a pending write runs: one call of the inner [set]. *)
Lemma run_pending_timer timeout ms base w0 w1 arg t :
  handles_issued w0 →
  one_pending timeout ms base w0 w1 arg t →
  run_timer t w1
  = set base arg
      (with_now (now w1 + ms)
         (with_timers (pending_elsewhere timeout w0) w1)).
Proof.
  intros Hall Hinv.
  pose proof (cancel_own_timer _ _ _ _ _ _ _ Hall Hinv) as Hcancel.
  destruct Hinv as (Ht & _).
  unfold run_timer. rewrite Hcancel. rewrite Ht. simpl.
  by rewrite Nat.max_r by lia.
Qed.

(** Over a plain container whose listeners return normally, the write
    is made and announced by the time the callback returns. *)
Lemma pending_write_lands timeout ms c w0 w1 arg t :
  handles_issued w0 →
  one_pending timeout ms (SBase c) w0 w1 arg t →
  Forall returns_normally (listeners (cell_at c w0)) →
  let cur := current (cell_at c w0) in
  let ls := listeners (cell_at c w0) in
  let next := (candidate arg cur (heap w0)).1 in
  ∃ w2, run_timer t w1 = (Ret tt, w2)
    ∧ timers w2 = pending_elsewhere timeout w0
    ∧ current (cell_at c w2) = (if strict_eq next cur then cur else next)
    ∧ listeners (cell_at c w2) = ls
    ∧ calls (trace w2)
      = calls (trace w0)
        ++ (if strict_eq next cur then []
            else (λ cb, (cb_ref cb, next)) <$> ls).
Proof.
  intros Hall Hinv Hls cur ls next.
  rewrite (run_pending_timer _ _ _ _ _ _ _ Hall Hinv).
  destruct Hinv as (_ & _ & _ & _ & Hc & Hh & Htr).
  set (wf := with_now _ _).
  assert (cell_at c wf = cell_at c w0) as Hcell by (by apply cell_at_ext).
  assert (heap wf = heap w0) as Hhf by exact Hh.
  destruct (state_set_timers c arg wf) as [Hts _].
  pose proof (state_set_notifies c arg wf) as Hset. cbv zeta in Hset.
  rewrite Hcell, Hhf in Hset. fold cur ls in Hset. fold next in Hset.
  destruct (Hset Hls) as (w' & Hrun & Hres). clear Hset.
  change (set (SBase c) arg wf) with (state_set c arg wf).
  rewrite Hrun in Hts |- *. simpl in Hts.
  exists w'. split; [reflexivity|]. split; [exact Hts|].
  destruct (strict_eq next cur).
  - destruct Hres as [Hcw Htw].
    rewrite (cell_at_ext c w' wf Hcw), Hcell, Htw.
    split; [reflexivity|]. split; [reflexivity|].
    rewrite app_nil_r. by rewrite <- Htr.
  - destruct Hres as (Hcw & Hcurw & Hcalls).
    split; [exact Hcurw|]. split.
    + unfold cell_at at 1. rewrite Hcw, lookup_insert_eq. reflexivity.
    + rewrite Hcalls. by rewrite <- Htr.
Qed.

(** C5, as the code has it.  A run of [set] calls on a debounced
    container, between which nothing else runs (the calls of one task;
    calls made within the delay, before the pending timer has run),
    leaves cells, heap and trace untouched: [get] returns the old value
    and no listener is called.  It leaves exactly one pending timer of
    this container, which holds the argument of the last call and is due
    [ms] after it; the timers that were pending for other containers
    stay.  When the host runs that timer, its callback is one call of the
    inner container's [set] with that argument.  Over a plain [state]
    container whose listeners return normally, when the callback returns
    the container holds the last candidate, and each listener has been
    called exactly once with it if it differs ([!==]) from the value held
    before, and not at all if it is identical.  The statement ends when
    the callback returns: what the host runs afterwards, such as the
    [hashchange] event that follows a listener's assignment to
    [location.hash], is not part of it. *)
Theorem debounce_coalesces_to_last_call (timeout ms : nat) (base : State)
  (w0 : World) (first : nat * SetArg) (rest : list (nat * SetArg)) :
  let s := SDebounce timeout ms base in
  let last := final_arg first.2 rest in
  let w1 := burst s (first :: rest) w0 in
  handles_issued w0 →
  cells w1 = cells w0 ∧ heap w1 = heap w0 ∧ trace w1 = trace w0
  ∧ get s w1 = (Ret (current (cell_at (root base) w0)), w1)
  ∧ ∃ t,
      timers w1 = pending_elsewhere timeout w0 ++ [t]
      ∧ timer_base t = base ∧ timer_arg t = last ∧ due t = now w1 + ms
      ∧ run_timer t w1
        = set base last
            (with_now (now w1 + ms)
               (with_timers (pending_elsewhere timeout w0) w1))
      ∧ ∀ c,
          base = SBase c →
          Forall returns_normally (listeners (cell_at c w0)) →
          let cur := current (cell_at c w0) in
          let ls := listeners (cell_at c w0) in
          let next := (candidate last cur (heap w0)).1 in
          ∃ w2, run_timer t w1 = (Ret tt, w2)
            ∧ timers w2 = pending_elsewhere timeout w0
            ∧ current (cell_at c w2) = (if strict_eq next cur then cur else next)
            ∧ listeners (cell_at c w2) = ls
            ∧ calls (trace w2)
              = calls (trace w0)
                ++ (if strict_eq next cur then []
                    else (λ cb, (cb_ref cb, next)) <$> ls).
Proof.
  intros s last w1 Hall.
  assert (∃ t, one_pending timeout ms base w0 w1 last t) as [t Hinv].
  { subst w1 last s. destruct first as [gap arg].
    change (burst (SDebounce timeout ms base) ((gap, arg) :: rest) w0)
      with (burst (SDebounce timeout ms base) rest
              (set (SDebounce timeout ms base) arg (elapse gap w0)).2).
    eapply burst_pending; [exact Hall|]. apply first_call_pending. }
  pose proof Hinv as (Ht & Hid & Htm & Hv & Hc & Hh & Htr).
  split; [exact Hc|]. split; [exact Hh|]. split; [exact Htr|]. split.
  { subst s. rewrite get_root. simpl. by rewrite (cell_at_ext _ _ _ Hc). }
  exists t. split; [exact Htm|].
  split; [by rewrite Ht|]. split; [by rewrite Ht|]. split; [by rewrite Ht|].
  split; [by apply run_pending_timer|].
  intros c -> Hls. by apply (pending_write_lands timeout ms c w0 w1 last t).
Qed.

Lemma debounce_coalesces_to_last_call_witness :
  handles_issued typing_world
  ∧ Forall returns_normally (listeners (cell_at 0 typing_world))
  ∧ trace typing_burst = []
  ∧ ∃ t w2, timers typing_burst = [t]
      ∧ run_timer t typing_burst = (Ret tt, w2)
      ∧ current (cell_at 0 w2) = VStr "c"
      ∧ calls (trace w2) = [(UserFn 1, VStr "c")].
Proof.
  assert (handles_issued typing_world) as Hall by constructor.
  assert (Forall returns_normally (listeners (cell_at 0 typing_world))) as Hls
    by (repeat constructor).
  destruct (debounce_coalesces_to_last_call 7 50 (SBase 0) typing_world
              (0, Lit (VStr "a")) typing_rest Hall)
    as (_ & _ & Htr & _ & t & Htm & _ & _ & _ & _ & Hland).
  destruct (Hland 0 eq_refl Hls) as (w2 & Hrun & _ & Hcur & _ & Hcalls).
  split; [exact Hall|]. split; [exact Hls|]. split; [exact Htr|].
  exists t, w2. repeat split; assumption.
Defined.

(** The scenario of the test suite: [set('a')], [set('b')], [set('c')] in
    one go; after the replay of [subscribe], one notification, with
    ['c']. *)
Example debounce_three_calls_one_notification :
  calls (trace debounce_subscribed.2) = [(UserFn 1, VStr "")]
  ∧ calls (trace (debounce_demo [VStr "a"; VStr "b"; VStr "c"]))
    = [(UserFn 1, VStr ""); (UserFn 1, VStr "c")].
Proof. split; vm_compute; reflexivity. Qed.

(** C5 as stated fails when the last value of the run is identical to the
    value the container holds: after [set('a')], [set('')] on
    [compose(state(''), withDebounce(50))] and 100 ms, the pending write
    has been made (no timer is left), and the subscriber has not been
    notified. *)
Lemma debounce_identical_last_value_not_notified :
  debounce_subscribed.1 = Ret (SDebounce 1 50 (SBase 0))
  ∧ timers (debounce_demo [VStr "a"; VStr ""]) = []
  ∧ now (debounce_demo [VStr "a"; VStr ""]) = 100
  ∧ calls_to (UserFn 1) (trace (debounce_demo [VStr "a"; VStr ""]))
    = calls_to (UserFn 1) (trace debounce_subscribed.2)
  ∧ ¬ notified_once_with (UserFn 1) (VStr "") debounce_subscribed.2
        (debounce_demo [VStr "a"; VStr ""]).
Proof.
  split; [vm_compute; reflexivity|]. split; [vm_compute; reflexivity|].
  split; [vm_compute; reflexivity|]. split; [vm_compute; reflexivity|].
  unfold notified_once_with. vm_compute. discriminate.
Qed.

(** * Further properties of the code *)

(** ** Composition *)

(** X1. Composing a concatenated list of enhancers is composing the first
    part and then composing the second part over its result, effects
    included; [enhance] of a concatenation is the one [enhance] after the
    other. *)
Theorem compose_app (base : State) (es1 es2 : list Enhancer) (w : World) :
  compose base (es1 ++ es2) w
  = (let! s := compose base es1 in compose s es2) w
  ∧ enhance (es1 ++ es2) base w
    = (let! s := enhance es1 base in enhance es2 s) w.
Proof.
  assert (∀ b w0, compose b (es1 ++ es2) w0
                  = (let! s := compose b es1 in compose s es2) w0) as Happ.
  { unfold compose. induction es1 as [|e es IH]; intros b w0; simpl.
    - reflexivity.
    - rewrite bind_assoc. destruct (e b w0) as [[s|err] w'] eqn:E.
      + rewrite !(bind_ret _ _ _ _ _ E). apply IH.
      + by rewrite !(bind_thrown _ _ _ _ _ E). }
  split; apply Happ.
Qed.

(** X2. Outside a browser ([window] undefined) every stack of
    [withUrlParams], [withHashParams] and [withStorage] enhancers, in any
    order and with any codecs, returns the base container itself and
    leaves the world as it was: nothing is read, subscribed or
    registered. *)
Theorem sync_enhancers_do_nothing_without_window (base : State)
  (es : list SyncEnhancer) (w : World) :
  window_defined w = false →
  compose base (sync_enhancer <$> es) w = (Ret base, w).
Proof.
  intros Hwin. unfold compose.
  induction es as [|e es IH]; simpl; [reflexivity|].
  assert (sync_enhancer e base w = (Ret base, w)) as Hstep.
  { destruct e; simpl; unfold withUrlParams, withHashParams, withStorage;
      by rewrite Hwin. }
  rewrite (bind_ret _ _ _ _ _ Hstep). exact IH.
Qed.

Lemma sync_enhancers_do_nothing_without_window_witness :
  window_defined (one_cell (VNum 0) []) = false
  ∧ compose (SBase 0)
      [withUrlParams plain_codec; withStorage "k" plain_codec;
       withHashParams plain_codec] (one_cell (VNum 0) [])
    = (Ret (SBase 0), one_cell (VNum 0) []).
Proof.
  assert (window_defined (one_cell (VNum 0) []) = false) as Hwin by reflexivity.
  split; [exact Hwin|].
  exact (sync_enhancers_do_nothing_without_window (SBase 0)
           [SyncUrl plain_codec; SyncStorage "k" plain_codec;
            SyncHash plain_codec] _ Hwin).
Defined.

(** ** What [set] leaves alone *)

Lemma cell_at_insert_other c c' cell w :
  c ≠ c' → cell_at c' (with_cells (<[c := cell]> (cells w)) w) = cell_at c' w.
Proof. intros Hne. unfold cell_at. simpl. by rewrite lookup_insert_ne. Qed.

Lemma state_set_listeners c c' arg w :
  listeners (cell_at c' (state_set c arg w).2) = listeners (cell_at c' w).
Proof.
  pose proof (state_set_unfold c arg w) as Hset. simpl in Hset.
  rewrite Hset. clear Hset.
  destruct (strict_eq _ _); simpl; [reflexivity|].
  rewrite (cell_at_ext c' _ _ (notify_cells _ _ _)).
  destruct (decide (c = c')) as [->|Hne].
  - by rewrite cell_at_insert.
  - rewrite cell_at_insert_ne by exact Hne. reflexivity.
Qed.

Lemma state_set_other c c' arg w :
  c ≠ c' → cell_at c' (state_set c arg w).2 = cell_at c' w.
Proof.
  intros Hne. pose proof (state_set_unfold c arg w) as Hset. simpl in Hset.
  rewrite Hset. clear Hset.
  destruct (strict_eq _ _); simpl; [reflexivity|].
  rewrite (cell_at_ext c' _ _ (notify_cells _ _ _)).
  rewrite cell_at_insert_ne by exact Hne. reflexivity.
Qed.

(** [set] of the validation gate, in one step. *)
Lemma validation_set_unfold sch base arg w :
  let cur := current (cell_at (root base) w) in
  let nh := candidate arg cur (heap w) in
  set (SValidation sch base) arg w
  = match validate sch nh.1 nh.2 with
    | (Accepted value, h') => set base (Lit value) (with_heap h' w)
    | (Rejected issues, h') => (Thrown (ValidationFailed issues), with_heap h' w)
    end.
Proof.
  intros cur nh. subst nh. simpl. destruct arg as [v|f]; simpl.
  - unfold bind at 1. unfold ret at 1. unfold bind. simpl.
    by destruct (validate sch v (heap w)) as [[value|issues] h'].
  - rewrite bind_assoc. unfold bind at 1. rewrite get_root. fold cur.
    unfold bind at 1.
    destruct (f cur (heap w)) as [v h1]. simpl.
    unfold bind. simpl.
    by destruct (validate sch v h1) as [[value|issues] h'].
Qed.

(** A write through any container object changes no cell but the root
    cell's value. *)
Lemma set_frame s c' :
  ∀ arg w,
    listeners (cell_at c' (set s arg w).2) = listeners (cell_at c' w)
    ∧ (root s ≠ c' → cell_at c' (set s arg w).2 = cell_at c' w).
Proof.
  induction s as [c|evt h base IH|sch base IH|slot ms base IH]; intros arg w.
  - simpl. split; [apply state_set_listeners | apply state_set_other].
  - simpl. apply IH.
  - pose proof (validation_set_unfold sch base arg w) as Hset.
    cbv zeta in Hset. rewrite Hset. clear Hset.
    destruct (validate sch _ _) as [[value|issues] h']; [|by split].
    destruct (IH (Lit value) (with_heap h' w)) as [Hl Ho].
    split; [exact Hl | exact Ho].
  - rewrite debounce_set_unfold. by split.
Qed.

(** X3. A [set] through any container object (plain, validated,
    debounced or URL-synced), with a literal or an updater, leaves the
    listeners of every cell as they were, and leaves every cell other
    than the container's own untouched. *)
Theorem set_changes_only_its_own_value (s : State) (valueOrUpdater : SetArg)
  (w : World) (c' : nat) :
  listeners (cell_at c' (set s valueOrUpdater w).2) = listeners (cell_at c' w)
  ∧ (root s ≠ c' → cell_at c' (set s valueOrUpdater w).2 = cell_at c' w).
Proof. apply set_frame. Qed.

Lemma set_changes_only_its_own_value_witness :
  0 ≠ 1
  ∧ cell_at 1 (set (SBase 0) (Lit (VNum 5))
                 (with_cells {[0 := mkCell (VNum 0) [Observer 1];
                               1 := mkCell (VNum 7) [Observer 2]]}
                    (initial_world false))).2
    = mkCell (VNum 7) [Observer 2].
Proof.
  assert (0 ≠ 1) as Hne by discriminate.
  split; [exact Hne|].
  destruct (set_changes_only_its_own_value (SBase 0) (Lit (VNum 5))
              (with_cells {[0 := mkCell (VNum 0) [Observer 1];
                            1 := mkCell (VNum 7) [Observer 2]]}
                 (initial_world false)) 1) as [_ Hother].
  rewrite (Hother Hne). vm_compute. reflexivity.
Defined.

(** ** Registrations *)

Lemma add_listener_registered_any c c' cb w :
  registered c' (add_listener c cb w).2
  = if decide (c' = c)
    then (if bool_decide (cb_ref cb ∈ registered c w) then registered c w
          else registered c w ++ [cb_ref cb])
    else registered c' w.
Proof.
  destruct (decide (c' = c)) as [->|Hne]; [apply add_listener_registered|].
  unfold add_listener, registered. case_bool_decide; simpl; [reflexivity|].
  rewrite cell_at_insert_other by congruence. reflexivity.
Qed.

Lemma subscribe_registered s cb c w :
  registered c (subscribe s cb w).2
  = registered c (add_listener (root s) cb w).2.
Proof.
  rewrite subscribe_unfold, invoke_unfold.
  set (w0 := with_trace _ _).
  pose proof (run_callback_cells cb (current (cell_at (root s) w)) w0) as Hc.
  unfold registered.
  destruct (run_callback cb _ w0) as [[[]|e] w1]; simpl in *;
    by rewrite (cell_at_ext c w1 w0 Hc).
Qed.

Lemma after_unsubscribe_registered_any s f c w :
  registered c (after_unsubscribe s f w)
  = if decide (c = root s) then filter (λ g, g ≠ f) (registered c w)
    else registered c w.
Proof.
  destruct (decide (c = root s)) as [->|Hne];
    [apply after_unsubscribe_registered|].
  unfold registered. rewrite (cell_at_ext c _ _ (after_unsubscribe_cells s f w)).
  unfold delete_listener. simpl.
  rewrite cell_at_insert_other by congruence. reflexivity.
Qed.

Lemma after_unsubscribe_current s f c w :
  current (cell_at c (after_unsubscribe s f w)) = current (cell_at c w).
Proof.
  rewrite (cell_at_ext c _ _ (after_unsubscribe_cells s f w)).
  unfold delete_listener. simpl.
  destruct (decide (root s = c)) as [<-|Hne].
  - by rewrite cell_at_insert.
  - by rewrite cell_at_insert_other.
Qed.

(** X4. The listeners of a cell never hold the same function object
    twice: a new container starts with none, and [subscribe] (of any
    callback, on any container object), [set] and the unsubscribe
    functions all keep the registrations of every cell free of
    duplicates. *)
Theorem listeners_never_duplicate (c : nat) (w : World) :
  NoDup (registered c w) →
  (∀ initial, NoDup (registered c (state initial w).2))
  ∧ (∀ s cb, NoDup (registered c (subscribe s cb w).2))
  ∧ (∀ s arg, NoDup (registered c (set s arg w).2))
  ∧ (∀ s f, NoDup (registered c (unsubscriber s f w).2)).
Proof.
  intros Hnd. split; [|split; [|split]].
  - intros initial. unfold state, bind, fresh, ret, registered. simpl.
    destruct (decide (next_id w = c)) as [<-|Hne].
    + rewrite cell_at_insert. constructor.
    + rewrite cell_at_insert_ne by exact Hne. exact Hnd.
  - intros s cb. rewrite subscribe_registered, add_listener_registered_any.
    destruct (decide (c = root s)) as [->|Hne]; [|exact Hnd].
    case_bool_decide; [exact Hnd|].
    apply NoDup_app. split; [exact Hnd|]. split; [|apply NoDup_singleton].
    intros g Hg Hg'. apply list_elem_of_singleton in Hg'. by subst.
  - intros s arg. unfold registered.
    destruct (set_frame s c arg w) as [-> _]. exact Hnd.
  - intros s f. rewrite unsubscriber_unfold. simpl.
    rewrite after_unsubscribe_registered_any.
    destruct (decide (c = root s)); [by apply NoDup_filter | exact Hnd].
Qed.

Lemma listeners_never_duplicate_witness :
  NoDup (registered 0 (one_cell (VNum 0) [Observer 1; Observer 2]))
  ∧ NoDup (registered 0
             (subscribe (SBase 0) (Observer 1)
                (one_cell (VNum 0) [Observer 1; Observer 2])).2).
Proof.
  assert (NoDup (registered 0 (one_cell (VNum 0) [Observer 1; Observer 2])))
    as Hnd.
  { assert (registered 0 (one_cell (VNum 0) [Observer 1; Observer 2])
            = [UserFn 1; UserFn 2]) as -> by reflexivity.
    repeat constructor; intros Hin;
      repeat (apply elem_of_cons in Hin as [Hin|Hin]; [discriminate|]);
      by apply elem_of_nil in Hin. }
  split; [exact Hnd|].
  destruct (listeners_never_duplicate 0 _ Hnd) as (_ & Hsub & _).
  apply Hsub.
Defined.

(** X5. The unsubscribe function of a subscription, whatever the
    callback and the container object, removes exactly that callback from
    the container's cell: the other registrations stay, in their order,
    those of the enhancers included; no cell's value changes and nobody
    is called. *)
Theorem unsubscribe_removes_exactly_its_callback (s : State) (cb : Callback)
  (w w1 : World) (unsub : M unit) :
  subscribe s cb w = (Ret unsub, w1) →
  ∀ w2 c,
    (unsub w2).1 = Ret tt
    ∧ registered c (unsub w2).2
      = (if decide (c = root s)
         then filter (λ g, g ≠ cb_ref cb) (registered c w2)
         else registered c w2)
    ∧ current (cell_at c (unsub w2).2) = current (cell_at c w2)
    ∧ trace (unsub w2).2 = trace w2.
Proof.
  intros Hsub w2 c. rewrite subscribe_unfold in Hsub.
  destruct (invoke cb _ _) as [[[]|e] w']; [|discriminate].
  inversion Hsub; subst. rewrite unsubscriber_unfold. simpl.
  split; [reflexivity|]. split; [apply after_unsubscribe_registered_any|].
  split; [apply after_unsubscribe_current | apply after_unsubscribe_trace].
Qed.

Lemma unsubscribe_removes_exactly_its_callback_witness :
  ∃ unsub w1,
    subscribe (SBase 0) (Observer 2) full_storage_world = (Ret unsub, w1)
    ∧ registered 0 w1 = [Closure 1; UserFn 2]
    ∧ registered 0 (unsub w1).2 = [Closure 1].
Proof.
  destruct (subscribe (SBase 0) (Observer 2) full_storage_world)
    as [[unsub|e] w1] eqn:Hsub; [|vm_compute in Hsub; discriminate].
  exists unsub, w1. split; [reflexivity|].
  assert (registered 0 w1 = [Closure 1; UserFn 2]) as Hreg.
  { change w1 with (Ret unsub, w1).2. rewrite <- Hsub.
    vm_compute. reflexivity. }
  split; [exact Hreg|].
  destruct (unsubscribe_removes_exactly_its_callback (SBase 0) (Observer 2)
              full_storage_world w1 unsub Hsub w1 0) as (_ & Hafter & _).
  rewrite Hafter, Hreg. vm_compute. reflexivity.
Defined.

(** X6. A callback subscribed twice to a container is registered once and
    replayed at each [subscribe]; calling either of the two unsubscribe
    functions once leaves it unregistered, so the other subscription
    ends with it. *)
Theorem double_subscription_shares_one_registration (s : State) (n : nat)
  (w : World) :
  let c := root s in
  let w1 := (subscribe s (Observer n) w).2 in
  let w2 := (subscribe s (Observer n) w1).2 in
  registered c w2 = registered c w1
  ∧ calls_to (UserFn n) (trace w2)
    = calls_to (UserFn n) (trace w)
      ++ [current (cell_at c w); current (cell_at c w)]
  ∧ ∀ w3, UserFn n ∉ registered c (unsubscriber s (UserFn n) w3).2.
Proof.
  intros c w1 w2.
  assert (∀ w0, registered c (subscribe s (Observer n) w0).2
                = (if bool_decide (UserFn n ∈ registered c w0)
                   then registered c w0 else registered c w0 ++ [UserFn n]))
    as Hreg.
  { intros w0. rewrite subscribe_observer.
    exact (add_listener_registered c (Observer n) w0). }
  assert (∀ w0, trace (subscribe s (Observer n) w0).2
                = trace w0 ++ [Called (UserFn n) (current (cell_at c w0))])
    as Htr.
  { intros w0. rewrite subscribe_observer. reflexivity. }
  assert (∀ w0, current (cell_at c (subscribe s (Observer n) w0).2)
                = current (cell_at c w0)) as Hcur
    by (intros w0; apply subscribe_current).
  assert (UserFn n ∈ registered c w1) as Hin.
  { subst w1. rewrite Hreg. case_bool_decide; [assumption|].
    apply elem_of_app. right. by apply list_elem_of_singleton. }
  split; [|split].
  - subst w2. rewrite Hreg. by rewrite bool_decide_eq_true_2.
  - subst w2 w1. rewrite !Htr, Hcur.
    rewrite <- app_assoc, calls_to_app. f_equal.
    unfold calls_to, calls. simpl.
    rewrite !filter_cons. simpl.
    destruct (decide (UserFn n = UserFn n)); [|done].
    reflexivity.
  - intros w3. rewrite unsubscriber_unfold. simpl. subst c.
    rewrite after_unsubscribe_registered.
    intros Hmem. apply list_elem_of_filter in Hmem. by destruct Hmem.
Qed.

(** ** The validation gate, accepting *)

(** X7. When the schema accepts the candidate, the gate hands the
    schema's returned value (not the candidate, and never the updater) to
    the inner container's [set] as a literal; a plain [state] container
    then holds the schema's value. *)
Theorem validation_forwards_schema_value (schema : Schema) (base : State)
  (valueOrUpdater : SetArg) (w : World) (value : Value) (h' : Heap) :
  let cur := current (cell_at (root base) w) in
  let nh := candidate valueOrUpdater cur (heap w) in
  validate schema nh.1 nh.2 = (Accepted value, h') →
  set (SValidation schema base) valueOrUpdater w
  = set base (Lit value) (with_heap h' w)
  ∧ ∀ c, base = SBase c →
         current (cell_at c (set (SValidation schema base) valueOrUpdater w).2)
         = value.
Proof.
  intros cur nh Hacc.
  pose proof (validation_set_unfold schema base valueOrUpdater w) as Hset.
  cbv zeta in Hset. fold cur in Hset. fold nh in Hset. rewrite Hacc in Hset.
  split; [exact Hset|]. intros c ->. rewrite Hset. simpl.
  apply state_set_lit_current.
Qed.

Lemma validation_forwards_schema_value_witness :
  validate clamp_schema (VNum 250) (heap (one_cell (VNum 0) []))
  = (Accepted (VNum 100), heap (one_cell (VNum 0) []))
  ∧ current (cell_at 0 (set (SValidation clamp_schema (SBase 0))
                          (Lit (VNum 250)) (one_cell (VNum 0) [])).2)
    = VNum 100.
Proof.
  assert (validate clamp_schema (VNum 250) (heap (one_cell (VNum 0) []))
          = (Accepted (VNum 100), heap (one_cell (VNum 0) []))) as Hacc
    by reflexivity.
  split; [exact Hacc|].
  destruct (validation_forwards_schema_value clamp_schema (SBase 0)
              (Lit (VNum 250)) (one_cell (VNum 0) []) (VNum 100) _ Hacc)
    as [_ Hcur].
  exact (Hcur 0 eq_refl).
Defined.

(** ** Validation beneath debounce *)

(** X8. With [withValidation] declared before [withDebounce], a [set]
    returns normally whatever the value: the rejection cannot be caught
    where [set] is called.  When the host runs the timer and the schema
    rejects the candidate, the timer callback throws the validation error
    with the schema's issues, which is an uncaught exception for the
    host; no cell changes and no listener is called. *)
Theorem debounced_rejection_is_uncaught (schema : Schema) (base : State)
  (valueOrUpdater : SetArg) (id d : nat) (w : World) (issues : list Issue)
  (h' : Heap) :
  let cur := current (cell_at (root base) w) in
  let nh := candidate valueOrUpdater cur (heap w) in
  let t := mkTimer id d (SValidation schema base) valueOrUpdater in
  validate schema nh.1 nh.2 = (Rejected issues, h') →
  (∀ timeout ms w0,
     (set (SDebounce timeout ms (SValidation schema base)) valueOrUpdater w0).1
     = Ret tt)
  ∧ (run_timer t w).1 = Thrown (ValidationFailed issues)
  ∧ cells (run_timer t w).2 = cells w
  ∧ trace (run_timer t w).2 = trace w.
Proof.
  intros cur nh t Hrej. split.
  - intros timeout ms w0. by rewrite debounce_set_unfold.
  - unfold run_timer. simpl timer_base. simpl timer_arg.
    set (w2 := with_now _ _).
    pose proof (validation_set_unfold schema base valueOrUpdater w2) as Hset.
    cbv zeta in Hset.
    change (cell_at (root base) w2) with (cell_at (root base) w) in Hset.
    change (heap w2) with (heap w) in Hset.
    fold cur in Hset. fold nh in Hset. rewrite Hrej in Hset.
    rewrite Hset. by repeat split.
Qed.

Lemma debounced_rejection_is_uncaught_witness :
  validate name_schema (VObj 1) (heap person_world)
  = (Rejected [name_issue], heap person_world)
  ∧ (run_timer (mkTimer 5 50 (SValidation name_schema (SBase 0)) (Lit (VObj 1)))
       person_world).1 = Thrown (ValidationFailed [name_issue]).
Proof.
  assert (validate name_schema (VObj 1) (heap person_world)
          = (Rejected [name_issue], heap person_world)) as Hrej
    by (vm_compute; reflexivity).
  split; [exact Hrej|].
  destruct (debounced_rejection_is_uncaught name_schema (SBase 0)
              (Lit (VObj 1)) 5 50 person_world [name_issue] _ Hrej)
    as (_ & Hthrown & _).
  exact Hthrown.
Defined.

(** ** A listener that throws *)

Lemma notify_app c l1 l2 w :
  notify c (l1 ++ l2) w
  = match notify c l1 w with
    | (Ret _, w1) => notify c l2 w1
    | (Thrown e, w1) => (Thrown e, w1)
    end.
Proof.
  revert w. induction l1 as [|cb l1 IH]; intros w; [reflexivity|].
  rewrite <- app_comm_cons, !notify_cons.
  destruct (run_callback cb _ _) as [[[]|e] w1]; [apply IH | reflexivity].
Qed.

(** X9. When a listener throws during a notification, [set] throws the
    same error to its caller; the new value is stored all the same, the
    listeners registered before the throwing one have been called, and
    those registered after it are not called. *)
Theorem throwing_listener_stops_notification (c : nat)
  (valueOrUpdater : SetArg) (w : World) (pre post : list Callback)
  (cb : Callback) (e : Error) :
  let cur := current (cell_at c w) in
  let next := (candidate valueOrUpdater cur (heap w)).1 in
  listeners (cell_at c w) = pre ++ cb :: post →
  Forall returns_normally pre →
  (∀ w0, (run_callback cb next w0).1 = Thrown e) →
  strict_eq next cur = false →
  ∃ w', set (SBase c) valueOrUpdater w = (Thrown e, w')
        ∧ current (cell_at c w') = next
        ∧ calls (trace w')
          = calls (trace w) ++ ((λ cb', (cb_ref cb', next)) <$> (pre ++ [cb])).
Proof.
  intros cur next Hls Hpre Hthrow Hdiff. simpl.
  pose proof (state_set_unfold c valueOrUpdater w) as Hset. cbv zeta in Hset.
  fold cur in Hset. fold next in Hset. rewrite Hdiff, Hls in Hset.
  rewrite Hset. clear Hset.
  set (w1 := with_cells _ _).
  assert (current (cell_at c w1) = next) as Hcur1
    by (subst w1; by rewrite cell_at_insert).
  rewrite notify_app.
  destruct (notify_all c pre w1 Hpre) as (w2 & Hrun & Hc2 & Ht2).
  rewrite Hrun, notify_cons.
  rewrite (cell_at_ext c w2 w1 Hc2), Hcur1.
  set (w3 := with_trace _ w2).
  pose proof (Hthrow w3) as Hthrown.
  pose proof (run_callback_cells cb next w3) as Hc4.
  pose proof (run_callback_calls cb next w3) as Ht4.
  destruct (run_callback cb next w3) as [o w4]. simpl in *. subst o.
  exists w4. split; [reflexivity|]. split.
  - rewrite (cell_at_ext c w4 w2) by (by rewrite Hc4).
    by rewrite (cell_at_ext c w2 w1 Hc2).
  - rewrite Ht4. subst w3. simpl. rewrite calls_snoc_called, Ht2, Hcur1.
    rewrite fmap_app, <- app_assoc. reflexivity.
Qed.

Lemma throwing_listener_stops_notification_witness :
  listeners (cell_at 0 throwing_world)
  = [Observer 1] ++ UrlWriter 9 failing_codec :: [Observer 2]
  ∧ Forall returns_normally [Observer 1]
  ∧ (∀ w0, (run_callback (UrlWriter 9 failing_codec) (VNum 5) w0).1
           = Thrown (HostError "TypeError"))
  ∧ strict_eq (VNum 5) (VNum 0) = false
  ∧ ∃ w', set (SBase 0) (Lit (VNum 5)) throwing_world
          = (Thrown (HostError "TypeError"), w')
          ∧ current (cell_at 0 w') = VNum 5
          ∧ calls (trace w') = [(UserFn 1, VNum 5); (Closure 9, VNum 5)].
Proof.
  assert (listeners (cell_at 0 throwing_world)
          = [Observer 1] ++ UrlWriter 9 failing_codec :: [Observer 2]) as Hls
    by reflexivity.
  assert (Forall returns_normally [Observer 1]) as Hpre by (repeat constructor).
  assert (∀ w0, (run_callback (UrlWriter 9 failing_codec) (VNum 5) w0).1
                = Thrown (HostError "TypeError")) as Hthrow
    by (intros w0; reflexivity).
  assert (strict_eq (VNum 5) (VNum 0) = false) as Hdiff by reflexivity.
  split; [exact Hls|]. split; [exact Hpre|]. split; [exact Hthrow|].
  split; [exact Hdiff|].
  exact (throwing_listener_stops_notification 0 (Lit (VNum 5)) throwing_world
           [Observer 1] [Observer 2] (UrlWriter 9 failing_codec)
           (HostError "TypeError") Hls Hpre Hthrow Hdiff).
Defined.

(** ** The merge of hydration and of the event handlers *)

(** X10. [base.set({ ...base.get(), ...decoded })] always stores: the
    merged object is new, hence never identical to the value held (a
    value that refers into the heap as it is), so on a plain [state]
    container every listener is called with the new object even when the
    decoded value has no field at all. *)
Theorem merge_always_notifies (c : nat) (decoded : Value) (w : World) :
  let cur := current (cell_at c w) in
  let ls := listeners (cell_at c w) in
  let merged := VObj (next_ref (heap w)) in
  cur ≠ merged →
  Forall returns_normally ls →
  ∃ w', merge_decoded (SBase c) decoded w = (Ret tt, w')
        ∧ current (cell_at c w') = merged
        ∧ calls (trace w') = calls (trace w) ++ ((λ cb, (cb_ref cb, merged)) <$> ls).
Proof.
  intros cur ls merged Hfresh Hls.
  pose proof (merge_decoded_unfold (SBase c) decoded w) as Hm. cbv zeta in Hm.
  rewrite Hm. clear Hm. simpl root. simpl set.
  set (w1 := with_heap _ w).
  pose proof (state_set_notifies c (Lit merged) w1) as Hset. cbv zeta in Hset.
  change (cell_at c w1) with (cell_at c w) in Hset.
  fold cur ls in Hset.
  change ((candidate (Lit merged) cur (heap w1)).1) with merged in Hset.
  assert (strict_eq merged cur = false) as Hdiff.
  { destruct (strict_eq merged cur) eqn:E; [|reflexivity].
    apply strict_eq_eq in E. by symmetry in E. }
  rewrite Hdiff in Hset.
  destruct (Hset Hls) as (w' & Hrun & _ & Hcur & Hcalls).
  exists w'. split; [exact Hrun|]. split; [exact Hcur | exact Hcalls].
Qed.

Lemma merge_always_notifies_witness :
  current (cell_at 0 (one_cell (VNum 0) [Observer 1])) ≠ VObj 0
  ∧ Forall returns_normally (listeners (cell_at 0 (one_cell (VNum 0) [Observer 1])))
  ∧ ∃ w', merge_decoded (SBase 0) VUndefined (one_cell (VNum 0) [Observer 1])
          = (Ret tt, w')
          ∧ calls (trace w') = [(UserFn 1, VObj 0)].
Proof.
  assert (current (cell_at 0 (one_cell (VNum 0) [Observer 1])) ≠ VObj 0) as Hne
    by discriminate.
  assert (Forall returns_normally
            (listeners (cell_at 0 (one_cell (VNum 0) [Observer 1])))) as Hls
    by (repeat constructor).
  split; [exact Hne|]. split; [exact Hls|].
  destruct (merge_always_notifies 0 VUndefined _ Hne Hls)
    as (w' & Hrun & _ & Hcalls).
  exists w'. split; [exact Hrun | exact Hcalls].
Defined.

(** X11. Spreading copies nothing from a number, a boolean, [null],
    [undefined] or [NaN].  So when the container holds such a value and
    the decoded value is one too (a counter persisted as a number, as in
    [examples/basic.ts]), the merge hands the inner [set] a new object
    without any field, and a plain [state] container holds that empty
    object afterwards instead of the decoded value. *)
Theorem merge_of_primitives_is_empty_object (c : nat) (decoded : Value)
  (w : World) :
  let r := next_ref (heap w) in
  spreads_nothing (current (cell_at c w)) = true →
  spreads_nothing decoded = true →
  ∃ w1, merge_decoded (SBase c) decoded w = set (SBase c) (Lit (VObj r)) w1
        ∧ objects (heap w1) !! r = Some ∅
        ∧ current (cell_at c (merge_decoded (SBase c) decoded w).2) = VObj r
        ∧ VObj r ≠ decoded.
Proof.
  intros r Hcur Hdec.
  pose proof (merge_decoded_unfold (SBase c) decoded w) as Hm. cbv zeta in Hm.
  simpl root in Hm.
  assert (own_props (heap w) decoded ∪ own_props (heap w) (current (cell_at c w))
          = ∅) as Hempty.
  { destruct decoded; try discriminate;
      destruct (current (cell_at c w)); try discriminate; simpl;
      apply (left_id_L ∅ (∪)). }
  rewrite Hempty in Hm.
  eexists. split; [exact Hm|]. split; [|split].
  - simpl. apply lookup_insert_eq.
  - rewrite Hm. simpl. apply state_set_lit_current.
  - destruct decoded; discriminate.
Qed.

Lemma merge_of_primitives_is_empty_object_witness :
  spreads_nothing (current (cell_at 0 counter_world)) = true
  ∧ spreads_nothing (VNum 7) = true
  ∧ JSON_parse (JSON counter_world) "seven.." (heap counter_world)
    = (Ret (VNum 7), heap counter_world)
  ∧ current (cell_at 0 (merge_decoded (SBase 0) (VNum 7) counter_world).2)
    = VObj 0
  ∧ current (cell_at 0 (withStorage "counter" plain_codec (SBase 0)
                          counter_world).2) = VObj 0.
Proof.
  assert (spreads_nothing (current (cell_at 0 counter_world)) = true) as Hcur
    by reflexivity.
  assert (spreads_nothing (VNum 7) = true) as Hdec by reflexivity.
  split; [exact Hcur|]. split; [exact Hdec|]. split; [reflexivity|].
  destruct (merge_of_primitives_is_empty_object 0 (VNum 7) counter_world
              Hcur Hdec) as (w1 & _ & _ & Hafter & _).
  split; [exact Hafter|]. vm_compute. reflexivity.
Defined.

(** ** Reading the address bar *)



(** ** Outbound writes *)

Lemma params_of_elem fs k text :
  (k, text) ∈ params_of fs
  ↔ ∃ v, fs !! k = Some v ∧ nullish v = false ∧ text = js_String v.
Proof.
  unfold params_of. rewrite list_elem_of_omap. split.
  - intros ([k' v] & Hin & Hsome). apply elem_of_map_to_list in Hin.
    simpl in Hsome. exists v.
    destruct v; inversion Hsome; subst; repeat split; try done.
  - intros (v & Hv & Hn & ->). exists (k, v).
    split; [by apply elem_of_map_to_list|].
    simpl. by destruct v.
Qed.

Lemma params_of_keys_NoDup fs : NoDup (params_of fs).*1.
Proof.
  unfold params_of.
  pose proof (NoDup_fst_map_to_list fs) as Hnd.
  induction (map_to_list fs) as [|[k v] l IH]; [constructor|].
  simpl in Hnd. apply NoDup_cons in Hnd as [Hk Hnd]. specialize (IH Hnd).
  assert (∀ k', k' ∈ (omap (λ kv : string * Value,
                              match kv.2 with
                              | VUndefined | VNull => None
                              | v0 => Some (kv.1, js_String v0)
                              end) l).*1 → k' ∈ l.*1) as Hsub.
  { intros k' Hin. apply list_elem_of_fmap in Hin as ([k1 t1] & -> & Hin).
    apply list_elem_of_omap in Hin as ([k2 v2] & Hin & Hsome).
    apply list_elem_of_fmap. exists (k2, v2). split; [|exact Hin].
    simpl in *. by destruct v2; inversion Hsome. }
  simpl. destruct v; simpl; try exact IH;
    (apply NoDup_cons; split; [intros Hin; apply Hk, Hsub, Hin | exact IH]).
Qed.

Lemma params_of_written fs : entries_written fs (params_of fs).
Proof.
  split; [intros k text; apply params_of_elem | apply params_of_keys_NoDup].
Qed.

(** X13. What the internal listener of [withUrlParams] (resp.
    [withHashParams]) does when the codec's [encode] returns normally.
    If the encoded value is [undefined] or [null], [Object.entries]
    throws a [TypeError] and the address bar is left as it is.
    Otherwise the listener returns normally and the query string (resp.
    the hash) holds one entry [key=String(value)] for each property of
    the encoded value that is neither [undefined] nor [null], each key
    once, and nothing else; the other of the two surfaces,
    [localStorage] and the event listeners are left as they are.  No
    cell changes either way.  The property values are taken to be
    primitives, the numbers safe integers; the order of the entries is
    not stated. *)
Theorem location_writers_write_defined_entries (id : nat) (codec : Codec)
  (value encoded : Value) (w : World) (h1 : Heap) :
  encode codec value (heap w) = (Ret encoded, h1) →
  let fs := own_props h1 encoded in
  let ru := run_callback (UrlWriter id codec) value w in
  let rh := run_callback (HashWriter id codec) value w in
  map_Forall (λ _ v, prints_as_modelled v = true) fs →
  (if nullish encoded
   then ru.1 = Thrown (HostError "TypeError")
        ∧ rh.1 = Thrown (HostError "TypeError")
        ∧ window ru.2 = window w ∧ window rh.2 = window w
   else ru.1 = Ret tt ∧ rh.1 = Ret tt
        ∧ entries_written fs (location_search (window ru.2))
        ∧ entries_written fs (location_hash (window rh.2))
        ∧ location_hash (window ru.2) = location_hash (window w)
        ∧ location_search (window rh.2) = location_search (window w)
        ∧ localStorage (window ru.2) = localStorage (window w)
        ∧ localStorage (window rh.2) = localStorage (window w)
        ∧ event_listeners (window ru.2) = event_listeners (window w)
        ∧ event_listeners (window rh.2) = event_listeners (window w))
  ∧ cells ru.2 = cells w ∧ cells rh.2 = cells w.
Proof.
  intros Henc fs ru rh _.
  split; [|subst ru rh; by rewrite !run_callback_cells].
  pose proof (params_of_written fs) as Hwritten.
  subst ru rh fs. simpl. unfold_m. rewrite Henc. simpl.
  destruct encoded; simpl in *;
    repeat first [exact Hwritten | reflexivity | split].
Qed.

Lemma location_writers_write_defined_entries_witness :
  encode plain_codec (VObj 0) (heap search_world)
  = (Ret (VObj 0), heap search_world)
  ∧ map_Forall (λ _ v, prints_as_modelled v = true)
      (own_props (heap search_world) (VObj 0))
  ∧ (run_callback (UrlWriter 3 plain_codec) (VObj 0) search_world).1 = Ret tt
  ∧ ("page", "1")
    ∈ location_search
        (window (run_callback (UrlWriter 3 plain_codec) (VObj 0) search_world).2).
Proof.
  assert (encode plain_codec (VObj 0) (heap search_world)
          = (Ret (VObj 0), heap search_world)) as Henc by reflexivity.
  assert (map_Forall (λ _ v, prints_as_modelled v = true)
            (own_props (heap search_world) (VObj 0))) as Hprim
    by (apply (bool_decide_unpack _); vm_compute; exact I).
  split; [exact Henc|]. split; [exact Hprim|].
  destruct (location_writers_write_defined_entries 3 plain_codec (VObj 0)
              (VObj 0) search_world _ Henc Hprim) as [(Hret & _ & Hurl & _) _].
  split; [exact Hret|].
  apply (proj1 Hurl). exists (VNum 1). by vm_compute.
Defined.

(** X14. What the internal listener of [withStorage] writes when the
    codec's [encode] and [JSON.stringify] return normally: if the record
    fits the quota, [localStorage] holds the text under the key and every
    other key keeps its record; if it does not fit, [localStorage] is
    unchanged.  Either way the address bar, the event listeners and all
    cells are left as they are. *)
Theorem persister_writes_one_record (id : nat) (key : string) (codec : Codec)
  (value encoded : Value) (text : string) (w : World) (h1 h2 : Heap) :
  encode codec value (heap w) = (Ret encoded, h1) →
  JSON_stringify (JSON w) encoded h1 = (Ret text, h2) →
  let store := localStorage (window w) in
  let w' := (run_callback (Persister id key codec) value w).2 in
  localStorage (window w')
  = (if bool_decide (storage_size (<[key := text]> store) ≤ quota (window w))
     then <[key := text]> store else store)
  ∧ (∀ k, k ≠ key → localStorage (window w') !! k = store !! k)
  ∧ location_search (window w') = location_search (window w)
  ∧ location_hash (window w') = location_hash (window w)
  ∧ event_listeners (window w') = event_listeners (window w)
  ∧ cells w' = cells w.
Proof.
  intros Henc Hstr store w'. subst w'. simpl. unfold_m.
  rewrite Henc. simpl. rewrite Hstr. simpl. fold store.
  case_bool_decide; simpl; repeat split; try done.
  intros k Hne. by rewrite lookup_insert_ne.
Qed.

Lemma persister_writes_one_record_witness :
  encode plain_codec (VNum 3) (heap (storage_world "old"))
  = (Ret (VNum 3), heap (storage_world "old"))
  ∧ JSON_stringify (JSON (storage_world "old")) (VNum 3)
      (heap (storage_world "old"))
    = (Ret "{}", heap (storage_world "old"))
  ∧ localStorage
      (window (run_callback (Persister 4 "other" plain_codec) (VNum 3)
                 (storage_world "old")).2)
    = {[ "other" := "{}"; "k" := "old" ]}.
Proof.
  assert (encode plain_codec (VNum 3) (heap (storage_world "old"))
          = (Ret (VNum 3), heap (storage_world "old"))) as Henc by reflexivity.
  assert (JSON_stringify (JSON (storage_world "old")) (VNum 3)
            (heap (storage_world "old"))
          = (Ret "{}", heap (storage_world "old"))) as Hstr by reflexivity.
  split; [exact Henc|]. split; [exact Hstr|].
  destruct (persister_writes_one_record 4 "other" plain_codec (VNum 3) (VNum 3)
              "{}" (storage_world "old") _ _ Henc Hstr) as (Hstore & _).
  rewrite Hstore. vm_compute. reflexivity.
Defined.

(** ** [withStorage] with nothing stored *)

Lemma persister_trace id key codec v w :
  trace (run_callback (Persister id key codec) v w).2 = trace w.
Proof.
  simpl. unfold_m. repeat (destruct_match; simpl); reflexivity.
Qed.

(** X15. In a browser, when [localStorage] has no record under the key,
    or an empty one, hydration does nothing at all: no [set] is made, the
    world is the same.  Composition then only subscribes the persisting
    listener, which is called once with the current value; no other
    listener is called and no container's value changes. *)
Theorem withStorage_without_record (key : string) (codec : Codec)
  (base : State) (w : World) :
  window_defined w = true →
  localStorage (window w) !! key = None
  ∨ localStorage (window w) !! key = Some "" →
  hydrate_from_storage key codec base w = (Ret tt, w)
  ∧ trace (withStorage key codec base w).2
    = trace w ++ [Called (Closure (next_id w)) (current (cell_at (root base) w))]
  ∧ ∀ c, current (cell_at c (withStorage key codec base w).2)
         = current (cell_at c w).
Proof.
  intros Hwin Hnone.
  assert (hydrate_from_storage key codec base w = (Ret tt, w)) as Hhyd.
  { unfold hydrate_from_storage, getItem.
    unfold bind at 1. unfold bind at 1. unfold get_window, ret at 1.
    destruct Hnone as [-> | ->]; reflexivity. }
  split; [exact Hhyd|]. split.
  - unfold withStorage. rewrite Hwin. simpl.
    unfold bind at 1, try_catch. rewrite Hhyd.
    unfold bind at 1, fresh. unfold bind at 1.
    rewrite subscribe_unfold, invoke_unfold.
    set (w0 := with_trace _ _).
    pose proof (persister_trace (next_id w) key codec
                  (current (cell_at (root base) (with_next_id (S (next_id w)) w)))
                  w0) as Htr.
    destruct (run_callback _ _ w0) as [[[]|e] w1]; simpl in *;
      rewrite Htr; subst w0; simpl; by rewrite add_listener_trace.
  - intros c. rewrite withStorage_current by exact Hwin. by rewrite Hhyd.
Qed.

Lemma withStorage_without_record_witness :
  window_defined search_world = true
  ∧ (localStorage (window search_world) !! "k" = None
     ∨ localStorage (window search_world) !! "k" = Some "")
  ∧ trace (withStorage "k" plain_codec (SBase 0) search_world).2
    = [Called (Closure 1) (VObj 0)].
Proof.
  assert (window_defined search_world = true) as Hwin by reflexivity.
  assert (localStorage (window search_world) !! "k" = None
          ∨ localStorage (window search_world) !! "k" = Some "") as Hnone
    by (left; reflexivity).
  split; [exact Hwin|]. split; [exact Hnone|].
  destruct (withStorage_without_record "k" plain_codec (SBase 0) search_world
              Hwin Hnone) as (_ & Htr & _).
  exact Htr.
Defined.

(** ** The side-effect runner on later changes *)

Lemma run_callback_unrelated effect previous cb v w :
  unrelated_to effect previous cb →
  effect_calls effect (trace (run_callback cb v w).2) = effect_calls effect (trace w)
  ∧ previous_vars (run_callback cb v w).2 !! previous = previous_vars w !! previous.
Proof.
  intros Hun. destruct cb; simpl in *; unfold_m;
    repeat (destruct_match; simpl); try (by split).
  destruct Hun as [He Hp]. split.
  - rewrite effect_calls_app. simpl.
    rewrite bool_decide_eq_false_2 by exact He. by rewrite app_nil_r.
  - by rewrite lookup_insert_ne.
Qed.

Lemma effect_calls_snoc_called effect tr f v :
  effect_calls effect (tr ++ [Called f v]) = effect_calls effect tr.
Proof. rewrite effect_calls_app. simpl. by rewrite app_nil_r. Qed.

Lemma notify_unrelated effect previous c ls w :
  Forall (unrelated_to effect previous) ls →
  effect_calls effect (trace (notify c ls w).2) = effect_calls effect (trace w)
  ∧ previous_vars (notify c ls w).2 !! previous = previous_vars w !! previous.
Proof.
  revert w. induction ls as [|cb ls IH]; intros w Hall; [by split|].
  inversion Hall as [|? ? Hcb Hls]; subst.
  rewrite notify_cons. set (w0 := with_trace _ _).
  destruct (run_callback_unrelated effect previous cb
              (current (cell_at c w)) w0 Hcb) as [He Hp].
  assert (effect_calls effect (trace w0) = effect_calls effect (trace w)) as He0
    by (subst w0; apply effect_calls_snoc_called).
  destruct (run_callback cb _ w0) as [[[]|e] w1]; simpl in He, Hp.
  - destruct (IH w1 Hls) as [He' Hp'].
    split; [etrans; [exact He'|]; etrans; [exact He | exact He0]
           | etrans; [exact Hp' | exact Hp]].
  - split; [etrans; [exact He | exact He0] | exact Hp].
Qed.

(** X16. The listener of [withEffect] on a change: when a plain [state]
    container stores a new value, the user's effect function is called
    exactly once, with the new value and the value its [previous]
    variable held, and [previous] then holds the new value, which is the
    container's value, whatever the listeners registered after it do.
    (The listeners before it return normally; no other listener runs the
    same effect function or owns the same variable.) *)
Theorem effect_runs_with_new_and_previous (c : nat) (valueOrUpdater : SetArg)
  (w : World) (pre post : list Callback) (id effect previous : nat)
  (prev : Value) :
  let cur := current (cell_at c w) in
  let next := (candidate valueOrUpdater cur (heap w)).1 in
  let w' := (set (SBase c) valueOrUpdater w).2 in
  listeners (cell_at c w) = pre ++ EffectRunner id effect previous :: post →
  Forall returns_normally pre →
  Forall (unrelated_to effect previous) (pre ++ post) →
  previous_vars w !! previous = Some prev →
  strict_eq next cur = false →
  effect_calls effect (trace w') = effect_calls effect (trace w) ++ [(next, prev)]
  ∧ previous_vars w' !! previous = Some next
  ∧ current (cell_at c w') = next.
Proof.
  intros cur next w' Hls Hpre Hun Hprev Hdiff.
  apply Forall_app in Hun as [Hunpre Hunpost].
  assert (current (cell_at c w') = next) as Hcurrent.
  { subst w'. simpl. rewrite state_set_current. cbv zeta.
    fold cur. fold next. by rewrite Hdiff. }
  pose proof (state_set_unfold c valueOrUpdater w) as Hset. cbv zeta in Hset.
  fold cur in Hset. fold next in Hset. rewrite Hdiff, Hls in Hset.
  simpl in Hset.
  set (w1 := with_cells _ _) in Hset.
  assert (∃ w4, notify c (pre ++ EffectRunner id effect previous :: post) w1
                = notify c post w4
                ∧ effect_calls effect (trace w4)
                  = effect_calls effect (trace w) ++ [(next, prev)]
                ∧ previous_vars w4 !! previous = Some next)
    as (w4 & Hn & He4 & Hp4).
  { rewrite notify_app.
    destruct (notify_all c pre w1 Hpre) as (w2 & Hrun & Hc2 & _).
    destruct (notify_unrelated effect previous c pre w1 Hunpre) as [He2 Hp2].
    rewrite Hrun in He2, Hp2. simpl in He2, Hp2.
    rewrite Hrun, notify_cons.
    assert (current (cell_at c w2) = next) as ->.
    { rewrite (cell_at_ext c w2 w1 Hc2). subst w1. by rewrite cell_at_insert. }
    simpl run_callback. unfold bind, log, ret. simpl.
    rewrite Hp2. change (previous_vars w1) with (previous_vars w).
    rewrite Hprev. simpl.
    eexists. split; [reflexivity|]. simpl. split.
    - rewrite <- app_assoc, !effect_calls_app. simpl.
      rewrite bool_decide_eq_true_2 by reflexivity.
      rewrite ?app_nil_r. f_equal. exact He2.
    - apply lookup_insert_eq. }
  destruct (notify_unrelated effect previous c post w4 Hunpost) as [He5 Hp5].
  subst w'. simpl. rewrite Hset, Hn.
  split; [by rewrite He5 | split; [by rewrite Hp5|]].
  rewrite <- Hn, <- Hset. exact Hcurrent.
Qed.

Lemma effect_runs_with_new_and_previous_witness :
  listeners (cell_at 0 (effect_demo false).2) = [] ++ EffectRunner 2 7 1 :: []
  ∧ Forall returns_normally []
  ∧ Forall (unrelated_to 7 1) ([] ++ [])
  ∧ previous_vars (effect_demo false).2 !! 1 = Some (VNum 0)
  ∧ strict_eq (VNum 4) (VNum 0) = false
  ∧ effect_calls 7 (trace (set (SBase 0) (Lit (VNum 4)) (effect_demo false).2).2)
    = [(VNum 0, VNum 0); (VNum 4, VNum 0)].
Proof.
  assert (listeners (cell_at 0 (effect_demo false).2)
          = [] ++ EffectRunner 2 7 1 :: []) as Hls by (vm_compute; reflexivity).
  assert (Forall returns_normally []) as Hpre by constructor.
  assert (Forall (unrelated_to 7 1) ([] ++ [])) as Hun by constructor.
  assert (previous_vars (effect_demo false).2 !! 1 = Some (VNum 0)) as Hprev
    by (vm_compute; reflexivity).
  assert (strict_eq (VNum 4) (VNum 0) = false) as Hdiff by reflexivity.
  repeat (split; [assumption|]).
  destruct (effect_runs_with_new_and_previous 0 (Lit (VNum 4))
              (effect_demo false).2 [] [] 2 7 1 (VNum 0) Hls Hpre Hun Hprev)
    as (Hcalls & _).
  - vm_compute. reflexivity.
  - rewrite Hcalls. vm_compute. reflexivity.
Defined.

(** ** Debounce: the second call and the timer of the first *)

(** X17. Whether a second [set] on a debounced container undoes the
    first depends on whether the host has run the first call's timer,
    not on the time that has passed.  If the timer has run before the
    second call (its callback returns normally when the listeners do),
    the first write has been made: the container holds the first
    candidate (or its old value when that one was identical), and the
    second call leaves its own write pending.  If the timer has not
    run, as for two calls of one task however long the task takes, the
    first write is cancelled: the container holds its old value, and
    only the second write is pending.  The timers of other containers
    stay pending in both cases. *)
Theorem debounce_second_call_and_first_timer (timeout ms c : nat)
  (w0 : World) (g1 gap : nat) (a1 a2 : SetArg) :
  let s := SDebounce timeout ms (SBase c) in
  let cur := current (cell_at c w0) in
  let first := (candidate a1 cur (heap w0)).1 in
  let w1 := (set s a1 (elapse g1 w0)).2 in
  let t1 := mkTimer (next_id w0) (now w1 + ms) (SBase c) a1 in
  let ran := (set s a2 (elapse gap (fire t1 w1))).2 in
  let not_ran := (set s a2 (elapse gap w1)).2 in
  handles_issued w0 →
  Forall returns_normally (listeners (cell_at c w0)) →
  timers w1 = pending_elsewhere timeout w0 ++ [t1]
  ∧ (run_timer t1 w1).1 = Ret tt
  ∧ current (cell_at c ran) = (if strict_eq first cur then cur else first)
  ∧ (∃ id, timers ran
           = pending_elsewhere timeout w0
             ++ [mkTimer id (now ran + ms) (SBase c) a2])
  ∧ current (cell_at c not_ran) = cur
  ∧ (∃ id, timers not_ran
           = pending_elsewhere timeout w0
             ++ [mkTimer id (now not_ran + ms) (SBase c) a2]).
Proof.
  intros s cur first w1 t1 ran not_ran Hall Hls.
  pose proof (first_call_pending timeout ms (SBase c) g1 a1 w0) as Hinv.
  fold s in Hinv. fold w1 in Hinv.
  assert (now w1 = now w0 + g1) as Hnow
    by (subst w1 s; by rewrite debounce_set_unfold).
  assert (t1 = mkTimer (next_id w0) (now w0 + g1 + ms) (SBase c) a1) as Ht1
    by (subst t1; by rewrite Hnow).
  rewrite <- Ht1 in Hinv.
  pose proof Hinv as (_ & _ & Htm & Hv & Hc & Hh & _).
  split; [exact Htm|].
  assert (cell_at c w1 = cell_at c w0) as Hcell by (by apply cell_at_ext).
  split; [|split; [|split; [|split]]].
  - destruct (pending_write_lands timeout ms c w0 w1 a1 t1 Hall Hinv Hls)
      as (w2 & Hrun & _).
    by rewrite Hrun.
  - subst ran s. rewrite debounce_set_unfold. unfold fire.
    rewrite (run_pending_timer _ _ _ _ _ _ _ Hall Hinv).
    set (wf := with_now _ _).
    change (cell_at c _) with (cell_at c (state_set c a1 wf).2).
    rewrite state_set_current.
    change (cell_at c wf) with (cell_at c w1). change (heap wf) with (heap w1).
    by rewrite Hcell, Hh.
  - subst ran s. rewrite debounce_set_unfold. unfold fire.
    rewrite (run_pending_timer _ _ _ _ _ _ _ Hall Hinv).
    set (wf := with_now _ _).
    change (set (SBase c) a1 wf) with (state_set c a1 wf).
    destruct (state_set_timers c a1 wf) as [Hts _].
    destruct (state_set_vars c a1 wf) as [Hvs _].
    simpl. rewrite Hts, Hvs.
    change (timeout_vars wf) with (timeout_vars w1).
    change (timers wf) with (pending_elsewhere timeout w0).
    rewrite Hv. simpl.
    rewrite (filter_older_timers _ (next_id w0))
      by (by apply pending_elsewhere_issued || lia).
    by eexists.
  - pose proof (next_call_pending timeout ms (SBase c) gap a1 a2 w0 w1 t1
                  Hall Hinv) as (_ & _ & _ & _ & Hc' & _).
    fold s in Hc'. fold not_ran in Hc'.
    by rewrite (cell_at_ext c _ _ Hc').
  - pose proof (next_call_pending timeout ms (SBase c) gap a1 a2 w0 w1 t1
                  Hall Hinv) as (_ & _ & Htm' & _).
    fold s in Htm'. fold not_ran in Htm'.
    assert (now not_ran = now w1 + gap) as ->
      by (subst not_ran s; by rewrite debounce_set_unfold).
    by eexists.
Qed.

Lemma debounce_second_call_and_first_timer_witness :
  handles_issued typing_world
  ∧ Forall returns_normally (listeners (cell_at 0 typing_world))
  ∧ current (cell_at 0
       (set (SDebounce 7 50 (SBase 0)) (Lit (VStr "b"))
          (elapse 60
             (fire (mkTimer 0 50 (SBase 0) (Lit (VStr "a")))
                (set (SDebounce 7 50 (SBase 0)) (Lit (VStr "a"))
                   (elapse 0 typing_world)).2))).2)
    = VStr "a"
  ∧ current (cell_at 0
       (set (SDebounce 7 50 (SBase 0)) (Lit (VStr "b"))
          (elapse 60
             (set (SDebounce 7 50 (SBase 0)) (Lit (VStr "a"))
                (elapse 0 typing_world)).2)).2)
    = VStr "".
Proof.
  assert (handles_issued typing_world) as Hall by constructor.
  assert (Forall returns_normally (listeners (cell_at 0 typing_world))) as Hls
    by (repeat constructor).
  split; [exact Hall|]. split; [exact Hls|].
  destruct (debounce_second_call_and_first_timer 7 50 0 typing_world 0 60
              (Lit (VStr "a")) (Lit (VStr "b")) Hall Hls)
    as (_ & _ & Hran & _ & Hnot & _).
  split; [exact Hran | exact Hnot].
Defined.

(** ** Debounce: one timer per instance *)

(** X18. Two [withDebounce] enhancers applied one after the other (to
    any containers, in a world whose identifiers were all handed out by
    the library) own different [timeout] variables: a [set] on the second
    container cancels no timer, so both writes are pending; and a new
    [set] on the first container cancels only the first container's
    timer. *)
Theorem debounce_instances_are_independent (ms1 ms2 : nat) (b1 b2 : State)
  (a1 a2 a1' : SetArg) (w : World) :
  let n := next_id w in
  let s1 := SDebounce n ms1 b1 in
  let s2 := SDebounce (S n) ms2 b2 in
  let w2 := with_next_id (S (S n)) w in
  let w4 := (set s2 a2 (set s1 a1 w2).2).2 in
  let t1 := mkTimer (S (S n)) (now w + ms1) b1 a1 in
  let t2 := mkTimer (S (S (S n))) (now w + ms2) b2 a2 in
  let t1' := mkTimer (S (S (S (S n)))) (now w + ms1) b1 a1' in
  (∀ k, n ≤ k → timeout_vars w !! k = None) →
  Forall (λ t, timer_id t < n) (timers w) →
  (let! c1 := withDebounce ms1 b1 in
   let! c2 := withDebounce ms2 b2 in
   ret (c1, c2)) w = (Ret (s1, s2), w2)
  ∧ timers w4 = timers w ++ [t1; t2]
  ∧ timers (set s1 a1' w4).2 = timers w ++ [t2; t1'].
Proof.
  intros n s1 s2 w2 w4 t1 t2 t1' Hvars Hids.
  split; [reflexivity|].
  assert (timers w4 = timers w ++ [t1; t2]
          ∧ timeout_vars w4 !! n = Some (S (S n))
          ∧ next_id w4 = S (S (S (S n))) ∧ now w4 = now w) as (Ht4 & Hv4 & Hn4 & Hnow).
  { subst w4 s1 s2. rewrite !debounce_set_unfold. simpl.
    rewrite (Hvars n) by lia.
    rewrite lookup_insert_ne by lia.
    rewrite (Hvars (S n)) by lia.
    rewrite lookup_insert_ne by lia. rewrite lookup_insert_eq.
    rewrite <- app_assoc. by repeat split. }
  split; [exact Ht4|].
  clearbody w4. subst s1. rewrite debounce_set_unfold. simpl.
  rewrite Hv4, Ht4, Hn4, Hnow.
  rewrite filter_app, (filter_older_timers _ n) by (done || lia).
  rewrite !filter_cons. simpl.
  destruct (decide (S (S n) ≠ S (S n))); [done|].
  destruct (decide (S (S (S n)) ≠ S (S n))); [|lia].
  rewrite filter_nil, <- app_assoc. reflexivity.
Qed.

Lemma debounce_instances_are_independent_witness :
  (∀ k, next_id (initial_world false) ≤ k →
        timeout_vars (initial_world false) !! k = None)
  ∧ Forall (λ t, timer_id t < next_id (initial_world false))
           (timers (initial_world false))
  ∧ length (timers (set (SDebounce 1 30 (SBase 9)) (Lit (VNum 2))
                      (set (SDebounce 0 50 (SBase 8)) (Lit (VNum 1))
                         (with_next_id 2 (initial_world false))).2).2) = 2.
Proof.
  assert (∀ k, next_id (initial_world false) ≤ k →
               timeout_vars (initial_world false) !! k = None) as Hvars
    by (intros k _; reflexivity).
  assert (Forall (λ t, timer_id t < next_id (initial_world false))
                 (timers (initial_world false))) as Hids by constructor.
  split; [exact Hvars|]. split; [exact Hids|].
  destruct (debounce_instances_are_independent 50 30 (SBase 8) (SBase 9)
              (Lit (VNum 1)) (Lit (VNum 2)) (Lit (VNum 3)) (initial_world false)
              Hvars Hids) as (_ & Ht4 & _).
  cbv zeta in Ht4. simpl next_id in Ht4.
  rewrite Ht4. reflexivity.
Defined.

(** ** After the teardown *)

Lemma after_unsubscribe_handlers_subset s f w h :
  h ∈ event_listeners (window (after_unsubscribe s f w)) →
  h ∈ event_listeners (window w).
Proof.
  induction s as [c|evt handler base IH|sch base IH|slot ms base IH]; simpl;
    try exact IH.
  - by intros.
  - intros Hin. apply list_elem_of_filter in Hin as [_ Hin]. by apply IH.
Qed.

Lemma dispatch_without_handlers evt w :
  filter (λ h, handler_evt h = evt) (event_listeners (window w)) = [] →
  dispatch evt w = (Ret tt, w).
Proof. intros Hnone. unfold dispatch, bind, get_window. by rewrite Hnone. Qed.

(** X19. Once any subscriber of a container of [withUrlParams] or
    [withHashParams] has unsubscribed, a navigation (the address bar
    changes and the event is delivered) no longer reaches the container:
    no cell changes and no listener is called, although the other
    subscribers are still registered.  (No other enhancer listens to the
    same event.) *)
Theorem navigation_is_ignored_after_unsubscribe (evt : ExtEvent)
  (handler : nat) (base : State) (f : FnRef) (w : World)
  (ps : list (string * string)) :
  let w' := (unsubscriber (SExt evt handler base) f w).2 in
  Forall (λ h, handler_evt h = evt → handler_id h = handler)
         (event_listeners (window w)) →
  (navigate evt ps w').1 = Ret tt
  ∧ cells (navigate evt ps w').2 = cells w'
  ∧ trace (navigate evt ps w').2 = trace w'.
Proof.
  intros w' Honly.
  assert (∀ win, event_listeners win = event_listeners (window w') →
                 filter (λ h, handler_evt h = evt) (event_listeners win) = [])
    as Hnone.
  { intros win ->. subst w'. rewrite unsubscriber_unfold. simpl.
    destruct (filter _ _) as [|h l] eqn:E; [reflexivity|].
    assert (h ∈ h :: l) as Hin by left.
    rewrite <- E in Hin. apply list_elem_of_filter in Hin as [Hevt Hin].
    apply list_elem_of_filter in Hin as [Hnot Hin].
    apply after_unsubscribe_handlers_subset in Hin.
    rewrite Forall_forall in Honly.
    exfalso. apply Hnot. split; [exact Hevt | by apply Honly]. }
  unfold navigate. unfold bind at 1.
  unfold write_params, bind, get_window, put_window.
  destruct evt; simpl; rewrite dispatch_without_handlers;
    try (by repeat split); apply Hnone; reflexivity.
Qed.

Lemma navigation_is_ignored_after_unsubscribe_witness :
  Forall (λ h, handler_evt h = Popstate → handler_id h = 2)
         (event_listeners
            (window (withUrlParams plain_codec (SBase 0) search_world).2))
  ∧ cells (navigate Popstate [("q", "milk")]
             (unsubscriber (SExt Popstate 2 (SBase 0)) (UserFn 1)
                (withUrlParams plain_codec (SBase 0) search_world).2).2).2
    = cells (withUrlParams plain_codec (SBase 0) search_world).2.
Proof.
  assert (Forall (λ h, handler_evt h = Popstate → handler_id h = 2)
            (event_listeners
               (window (withUrlParams plain_codec (SBase 0) search_world).2)))
    as Honly.
  { assert (event_listeners
              (window (withUrlParams plain_codec (SBase 0) search_world).2)
            = [mkHandler Popstate 2 plain_codec (SBase 0)]) as ->
      by (vm_compute; reflexivity).
    by repeat constructor. }
  split; [exact Honly|].
  destruct (navigation_is_ignored_after_unsubscribe Popstate 2 (SBase 0)
              (UserFn 1) _ [("q", "milk")] Honly) as (_ & Hcells & _).
  rewrite Hcells. vm_compute. reflexivity.
Defined.

(** ** Inbound propagation *)

(** X20. [handlePopState] / [handleHashChange]: when the address bar
    changes and the event reaches the one handler registered for it, the
    handler does what hydration does with the new entries: it calls the
    container's [set] with a new object that has the decoded fields and,
    for every field the decoded value lacks, the field of the current
    value; what that [set] throws goes to the host, not to any caller. *)
Theorem navigation_merges_like_hydration (evt : ExtEvent) (handler c : nat)
  (codec : Codec) (w : World) (ps : list (string * string))
  (decoded : Value) (h1 : Heap) :
  let cur := current (cell_at c w) in
  let merged := own_props h1 decoded ∪ own_props h1 cur in
  let hydrated :=
    with_heap (mkHeap (<[next_ref h1 := merged]> (objects h1)) (S (next_ref h1)))
              (write_params evt ps w).2 in
  filter (λ h, handler_evt h = evt) (event_listeners (window w))
  = [mkHandler evt handler codec (SBase c)] →
  decode codec (VObj (next_ref (heap w))) (alloc (collect ps) (heap w)).2
  = (Ret decoded, h1) →
  shallow_merge h1 cur decoded merged
  ∧ (navigate evt ps w).1 = Ret tt
  ∧ (navigate evt ps w).2 = (set (SBase c) (Lit (VObj (next_ref h1))) hydrated).2
  ∧ current (cell_at c (navigate evt ps w).2) = VObj (next_ref h1).
Proof.
  intros cur merged hydrated Hone Hdec.
  split; [apply union_shallow_merge|].
  set (w0 := (write_params evt ps w).2).
  assert (navigate evt ps w = dispatch evt w0) as Hnav.
  { unfold navigate. unfold bind at 1. subst w0.
    by destruct (write_params evt ps w) as [[[]|e] w0] eqn:E;
      [|unfold write_params, bind, get_window, put_window in E;
        destruct evt; discriminate]. }
  assert (event_listeners (window w0) = event_listeners (window w)) as Hsame
    by (subst w0; by destruct evt).
  assert (params_at evt w0 = ps) as Hps by (subst w0; by destruct evt).
  assert (sync_from_location evt codec (SBase c) w0
          = set (SBase c) (Lit (VObj (next_ref h1))) hydrated) as Hsync.
  { rewrite (sync_from_location_unfold evt codec (SBase c) w0 decoded h1).
    - apply merge_decoded_unfold.
    - rewrite Hps. exact Hdec. }
  assert (dispatch evt w0
          = (Ret tt, (set (SBase c) (Lit (VObj (next_ref h1))) hydrated).2))
    as Hdis.
  { unfold dispatch. unfold bind at 1. unfold get_window.
    rewrite Hsame, Hone. cbn [for_each handler_evt handler_codec handler_base].
    unfold bind, try_catch, ret. rewrite Hsync.
    by destruct (set (SBase c) _ hydrated) as [[[]|e] w2]. }
  rewrite Hnav, Hdis. split; [reflexivity|]. split; [reflexivity|].
  simpl. apply state_set_lit_current.
Qed.

Lemma navigation_merges_like_hydration_witness :
  filter (λ h, handler_evt h = Popstate)
    (event_listeners
       (window (withUrlParams plain_codec (SBase 0) search_world).2))
  = [mkHandler Popstate 2 plain_codec (SBase 0)]
  ∧ current (cell_at 0
       (navigate Popstate [("q", "milk")]
          (withUrlParams plain_codec (SBase 0) search_world).2).2)
    = VObj 4.
Proof.
  assert (filter (λ h, handler_evt h = Popstate)
            (event_listeners
               (window (withUrlParams plain_codec (SBase 0) search_world).2))
          = [mkHandler Popstate 2 plain_codec (SBase 0)]) as Hone
    by (vm_compute; reflexivity).
  split; [exact Hone|].
  set (w := (withUrlParams plain_codec (SBase 0) search_world).2) in *.
  assert (decode plain_codec (VObj (next_ref (heap w)))
            (alloc (collect [("q", "milk")]) (heap w)).2
          = (Ret (VObj 3), (alloc (collect [("q", "milk")]) (heap w)).2))
    as Hdec by (vm_compute; reflexivity).
  destruct (navigation_merges_like_hydration Popstate 2 0 plain_codec w
              [("q", "milk")] (VObj 3) _ Hone Hdec) as (_ & _ & _ & Hcur).
  rewrite Hcur. vm_compute. reflexivity.
Defined.

(** The event that follows the library's own write to [location.hash]
    is handled like any other: when [set] returns the subscriber has
    been called with the value set; when the browser delivers the
    [hashchange] event, the handler merges the hash, which has not
    changed, into a fresh object, and the subscriber is called once
    more. *)
Example hash_write_is_echoed :
  hash_echo_demo
  = (([VObj 3; VObj 1], [VObj 3; VObj 1; VObj 5]), (["tea"], ["tea"])).
Proof. vm_compute. reflexivity. Qed.

(** ** [withEffect] only observes *)

(** X21. [withEffect] returns the very container it was given (not a
    wrapper, so [get], [set] and [subscribe] of the result are the
    base's), and composing it changes no container's value. *)
Theorem withEffect_only_observes (effect : nat) (immediate : bool)
  (base : State) (w : World) :
  (withEffect effect immediate base w).1 = Ret base
  ∧ ∀ c, current (cell_at c (withEffect effect immediate base w).2)
         = current (cell_at c w).
Proof.
  split.
  - by destruct (withEffect_composition_calls effect immediate base w)
      as (w' & -> & _).
  - intros c. unfold withEffect. unfold bind at 1. rewrite get_root.
    unfold bind at 1. unfold fresh at 1. unfold bind at 1. cbn beta iota.
    unfold bind at 1.
    destruct immediate.
    + unfold call_effect, log. unfold bind at 1, fresh. unfold bind at 1.
      match goal with
      | |- context [subscribe ?s ?cb ?w0] =>
          pose proof (subscribe_current s cb c w0) as Hsub;
          destruct (subscribe s cb w0) as [[unsub|e] wb]
      end; exact Hsub.
    + unfold ret at 1. unfold bind at 1, fresh. unfold bind at 1.
      match goal with
      | |- context [subscribe ?s ?cb ?w0] =>
          pose proof (subscribe_current s cb c w0) as Hsub;
          destruct (subscribe s cb w0) as [[unsub|e] wb]
      end; exact Hsub.
Qed.

(** ** Containers do not share state *)

(** X22. Two containers created one after the other own different cells:
    each starts with its initial value and no listener, and whatever is
    written to the first (a literal or an updater), [get] on the second
    still returns the second's initial value. *)
Theorem containers_are_independent (a b : Value) (valueOrUpdater : SetArg)
  (w : World) :
  ∃ s1 s2 w2,
    (let! c1 := state a in let! c2 := state b in ret (c1, c2)) w
    = (Ret (s1, s2), w2)
    ∧ root s1 ≠ root s2
    ∧ get s1 w2 = (Ret a, w2) ∧ get s2 w2 = (Ret b, w2)
    ∧ registered (root s1) w2 = [] ∧ registered (root s2) w2 = []
    ∧ (get s2 (set s1 valueOrUpdater w2).2).1 = Ret b.
Proof.
  eexists (SBase (next_id w)), (SBase (S (next_id w))), _.
  split; [reflexivity|].
  assert (next_id w ≠ S (next_id w)) as Hne by lia.
  split; [exact Hne|].
  set (w2 := with_cells _ _).
  assert (cell_at (S (next_id w)) w2 = mkCell b []) as Hc2
    by (subst w2; apply cell_at_insert).
  assert (cell_at (next_id w) w2 = mkCell a []) as Hc1.
  { subst w2. unfold cell_at. simpl. rewrite lookup_insert_ne by lia.
    by rewrite lookup_insert_eq. }
  rewrite !get_root. simpl root. unfold registered. rewrite Hc1, Hc2.
  repeat (split; [reflexivity|]).
  destruct (set_frame (SBase (next_id w)) (S (next_id w)) valueOrUpdater w2)
    as [_ Hother].
  simpl. simpl in Hother. rewrite (Hother Hne), Hc2. reflexivity.
Qed.
